(** * ChatVortex: the persistent conversation store

    A shallow embedding of the storage code of ChatVortex
    ([src/lib/storage.ts], [src/hooks/useAdvancedStorage.ts], the
    sessions-save effect of the chat page and the model-list cache of
    [lib/api.ts]) and the properties of its specification.

    Conventions of the embedding.
    - A JavaScript [Date] is the integer number of milliseconds since the
      epoch ([Z]); [new Date()] is a clock reading passed as [now].
    - A JavaScript string is a [string]; its elements stand for the code
      units that [slice] and [length] count.
    - An object store with [keyPath: 'id'] holds one record per id, and the
      id of a record is its key: the store is a finite map ([gmap]) from the
      id to the remaining fields of the record.
    - [await] on the single JavaScript thread is sequencing: an operation is
      a function from the state before to the state after. *)

From Stdlib Require Import ZArith QArith String List Sorted Permutation.
From stdpp Require Import base decidable option list sorting gmap strings.

Local Open Scope Z_scope.

(** ** JavaScript helpers *)

(** [s.slice(0, n)] *)
Definition slice_prefix (n : nat) (s : string) : string :=
  String.substring 0 n s.

(** [s.slice(-n)] *)
Definition slice_last (n : nat) (s : string) : string :=
  String.substring (String.length s - n) n s.

(** Truthiness of an optional string: [undefined] and [''] are falsy. *)
Definition truthy (o : option string) : bool :=
  match o with
  | None => false
  | Some s => negb (String.eqb s "")
  end.

(** [o || d] on an optional string *)
Definition or_default (o : option string) (d : string) : string :=
  if truthy o then default d o else d.

(** [Array.prototype.sort(cmp)]: a stable sort; [a] stays before [b] when
    [cmp a b <= 0]. *)
Fixpoint sort_insert {A} (cmp : A -> A -> Z) (x : A) (l : list A) : list A :=
  match l with
  | [] => [x]
  | y :: l' => if cmp x y <=? 0 then x :: l else y :: sort_insert cmp x l'
  end.

Fixpoint js_sort {A} (cmp : A -> A -> Z) (l : list A) : list A :=
  match l with
  | [] => []
  | x :: l' => sort_insert cmp x (js_sort cmp l')
  end.

(** The order a comparator sorts into. *)
Definition ordered {A} (cmp : A -> A -> Z) (x y : A) : Prop := cmp x y ≤ 0.

(** ** Data model ([types/chat.ts]) *)

Inductive Role := user | assistant.

Inductive LayoutMode := floating_cards | split_screen | timeline | immersive.

Record SessionConfig := {
  model : string;
  temperature : Q;
  maxTokens : Z;
  contextLimit : Z;
  systemPrompt : option string
}.

Record Message := {
  m_id : string;
  m_content : string;
  m_role : Role;
  m_timestamp : Z;
  m_isTyping : option bool;
  m_isStreaming : option bool
}.

Record ChatSession := {
  s_id : string;
  s_title : string;
  s_messages : list Message;
  s_createdAt : Z;
  s_updatedAt : Z;
  s_layoutMode : option LayoutMode;
  s_config : option SessionConfig;
  s_messageCount : option Z;
  s_lastMessagePreview : option string
}.

(** [CompressedSession] of [storage.ts], as [saveSession] writes it: the
    session without its messages (the spread [...sessionMetadata] carries a
    [lastMessagePreview] of the argument along), then the three summary
    fields. A record written by an older version may lack [messageCount]
    or hold something that is not a number there: both are [None]. *)
Record CompressedSession := {
  cs_id : string;
  cs_title : string;
  cs_createdAt : Z;
  cs_updatedAt : Z;
  cs_layoutMode : option LayoutMode;
  cs_config : option SessionConfig;
  cs_lastMessagePreview : option string;
  cs_messageCount : option Z;
  cs_lastMessageId : option string;
  cs_preview : option string
}.

(** A record of the sessions store without its key. *)
Record SessionBody := {
  sb_title : string;
  sb_createdAt : Z;
  sb_updatedAt : Z;
  sb_layoutMode : option LayoutMode;
  sb_config : option SessionConfig;
  sb_lastMessagePreview : option string;
  sb_messageCount : option Z;
  sb_lastMessageId : option string;
  sb_preview : option string
}.

(** A record of the messages store without its key: the message with the
    [sessionId] that [saveSession] adds. *)
Record MessageBody := {
  mb_sessionId : string;
  mb_content : string;
  mb_role : Role;
  mb_timestamp : Z;
  mb_isTyping : option bool;
  mb_isStreaming : option bool
}.

Definition session_body (cs : CompressedSession) : SessionBody :=
  {| sb_title := cs_title cs; sb_createdAt := cs_createdAt cs;
     sb_updatedAt := cs_updatedAt cs; sb_layoutMode := cs_layoutMode cs;
     sb_config := cs_config cs;
     sb_lastMessagePreview := cs_lastMessagePreview cs;
     sb_messageCount := cs_messageCount cs;
     sb_lastMessageId := cs_lastMessageId cs; sb_preview := cs_preview cs |}.

Definition session_record (kb : string * SessionBody) : CompressedSession :=
  {| cs_id := kb.1; cs_title := sb_title kb.2;
     cs_createdAt := sb_createdAt kb.2; cs_updatedAt := sb_updatedAt kb.2;
     cs_layoutMode := sb_layoutMode kb.2; cs_config := sb_config kb.2;
     cs_lastMessagePreview := sb_lastMessagePreview kb.2;
     cs_messageCount := sb_messageCount kb.2;
     cs_lastMessageId := sb_lastMessageId kb.2;
     cs_preview := sb_preview kb.2 |}.

(** [{ ...message, sessionId }] *)
Definition message_body (sessionId : string) (m : Message) : MessageBody :=
  {| mb_sessionId := sessionId; mb_content := m_content m;
     mb_role := m_role m; mb_timestamp := m_timestamp m;
     mb_isTyping := m_isTyping m; mb_isStreaming := m_isStreaming m |}.

(** [({ sessionId, ...msg }) => ({ ...msg, timestamp: new Date(msg.timestamp) })] *)
Definition message_of (kb : string * MessageBody) : Message :=
  {| m_id := kb.1; m_content := mb_content kb.2; m_role := mb_role kb.2;
     m_timestamp := mb_timestamp kb.2; m_isTyping := mb_isTyping kb.2;
     m_isStreaming := mb_isStreaming kb.2 |}.

(** ** The IndexedDB database [ChatVortexDB] *)

Record ChatDB := {
  sessionsStore : gmap string SessionBody;
  messagesStore : gmap string MessageBody
}.

Definition emptyDB : ChatDB :=
  {| sessionsStore := ∅; messagesStore := ∅ |}.

(** [sessionStore.put(record)] and [messageStore.put(record)]: upserts. *)
Definition put_session (cs : CompressedSession) (db : ChatDB) : ChatDB :=
  {| sessionsStore := <[cs_id cs := session_body cs]> (sessionsStore db);
     messagesStore := messagesStore db |}.

Definition put_message (sessionId : string) (db : ChatDB) (m : Message) : ChatDB :=
  {| sessionsStore := sessionsStore db;
     messagesStore := <[m_id m := message_body sessionId m]> (messagesStore db) |}.

(** Index order. An index lists its records by index key, records with equal
    keys by primary key. Within one session the key of [sessionTimestamp]
    is the timestamp. *)
Definition message_key_leb (x y : string * MessageBody) : bool :=
  (mb_timestamp x.2 <? mb_timestamp y.2) ||
  ((mb_timestamp x.2 =? mb_timestamp y.2) && String.leb x.1 y.1).

Definition message_key_le (x y : string * MessageBody) : Prop :=
  message_key_leb x y = true.

Definition session_key_leb (x y : string * SessionBody) : bool :=
  (sb_updatedAt x.2 <? sb_updatedAt y.2) ||
  ((sb_updatedAt x.2 =? sb_updatedAt y.2) && String.leb x.1 y.1).

Definition session_key_le (x y : string * SessionBody) : Prop :=
  session_key_leb x y = true.

#[global] Instance message_key_le_dec x y : Decision (message_key_le x y).
Proof. unfold message_key_le. apply _. Defined.

#[global] Instance session_key_le_dec x y : Decision (session_key_le x y).
Proof. unfold session_key_le. apply _. Defined.

(** The records of session [sessionId] whose timestamp lies in the closed
    range [lower, upper]: membership in
    [IDBKeyRange.bound([sessionId, lower], [sessionId, upper])]. *)
Definition in_range (sessionId : string) (lower upper : Z)
    (kb : string * MessageBody) : Prop :=
  mb_sessionId kb.2 = sessionId ∧ lower ≤ mb_timestamp kb.2 ∧ mb_timestamp kb.2 ≤ upper.

#[global] Instance in_range_dec sid lo hi kb : Decision (in_range sid lo hi kb).
Proof. unfold in_range. apply _. Defined.

(** [index.getAll(range, count)] on [sessionTimestamp]: the records of the
    range in index order; [count] absent or 0 means all of them. *)
Definition getAll_count {A} (count : option nat) (l : list A) : list A :=
  match count with
  | None | Some O => l
  | Some n => take n l
  end.

Definition sessionTimestamp_getAll (db : ChatDB) (sessionId : string)
    (lower upper : Z) (count : option nat) : list (string * MessageBody) :=
  getAll_count count
    (merge_sort message_key_le
       (filter (in_range sessionId lower upper) (map_to_list (messagesStore db)))).

(** [index.getAll()] on [updatedAt] of the sessions store. *)
Definition updatedAt_getAll (db : ChatDB) : list CompressedSession :=
  session_record <$> merge_sort session_key_le (map_to_list (sessionsStore db)).

(** [messageIndex.getAll(sessionId)] on the [sessionId] index: every message
    of the session. *)
Definition sessionId_getAll (db : ChatDB) (sessionId : string) : list (string * MessageBody) :=
  merge_sort message_key_le
    (filter (λ kb, mb_sessionId kb.2 = sessionId) (map_to_list (messagesStore db))).

(** ** The fallback slot

    What [localStorage] holds under the key ['chatvortex-sessions'], as far
    as the code tells values apart: the empty string (falsy), a text that
    [JSON.parse] rejects or that is not an array of sessions, and
    [JSON.stringify(sessions)], which parses back (dates revived by
    [new Date]) to [sessions]. [None] is an absent key. *)
Inductive SlotValue :=
  | EmptyText
  | Unparsable
  | SessionsJson (sessions : list ChatSession).

(** Truthiness of [localStorage.getItem('chatvortex-sessions')] *)
Definition slot_truthy (slot : option SlotValue) : bool :=
  match slot with
  | None | Some EmptyText => false
  | Some _ => true
  end.

(** Faults of the primary engine during one call: none, a request of the
    transaction fails (the transaction aborts, nothing is written), or the
    database cannot be reached ([ensureDB] rejects). *)
Inductive Fault := NoFault | TransactionFault | EngineFault.

(** The end of a promise. *)
Inductive Outcome (A : Type) :=
  | Resolved (a : A)
  | Rejected.
Arguments Resolved {A} a.
Arguments Rejected {A}.

(** ** [StorageManager] ([storage.ts]) *)

Module StorageManager.

(** [messages[messages.length - 1]] *)
Definition last_message (messages : list Message) : option Message :=
  last messages.

(** The record [saveSession] builds from its argument. *)
Definition compress (session : ChatSession) : CompressedSession :=
  let messages := s_messages session in
  {| cs_id := s_id session;
     cs_title := s_title session;
     cs_createdAt := s_createdAt session;
     cs_updatedAt := s_updatedAt session;
     cs_layoutMode := s_layoutMode session;
     cs_config := s_config session;
     cs_lastMessagePreview := s_lastMessagePreview session;
     cs_messageCount := Some (Z.of_nat (length messages));
     cs_lastMessageId := m_id <$> last_message messages;
     cs_preview := (λ m, slice_prefix 100 (m_content m)) <$> last_message messages |}.

(** [saveSession(session)]: one record into the sessions store, then every
    message, tagged with the session id, into the messages store. *)
Definition saveSession (session : ChatSession) (db : ChatDB) : ChatDB :=
  foldl (put_message (s_id session)) (put_session (compress session) db)
        (s_messages session).

(** [getAllSessions()]: the [updatedAt] index, then sorted newest first. *)
Definition getAllSessions (db : ChatDB) : list CompressedSession :=
  js_sort (λ a b, cs_updatedAt b - cs_updatedAt a) (updatedAt_getAll db).

(** [IDBKeyRange.bound(lower, upper)] throws a [DataError] when the lower
    key is greater than the upper one; the lower date is [new Date(0)]. *)
Definition bound_ok (upper : Z) : bool := 0 <=? upper.

(** [getSessionWithMessages(sessionId)]; [None] is [null]. The upper bound
    of the scan is [new Date()]. The range is built inside the [try], so a
    [DataError] gives [null] as well. *)
Definition getSessionWithMessages (now : Z) (db : ChatDB) (sessionId : string)
    : option ChatSession :=
  match sessionsStore db !! sessionId with
  | None => None
  | Some sessionData =>
      if bound_ok now then
        let messages := sessionTimestamp_getAll db sessionId 0 now None in
        Some {| s_id := sessionId;
                s_title := sb_title sessionData;
                s_messages :=
                  js_sort (λ a b, m_timestamp a - m_timestamp b)
                          (message_of <$> messages);
                s_createdAt := sb_createdAt sessionData;
                s_updatedAt := sb_updatedAt sessionData;
                s_layoutMode := sb_layoutMode sessionData;
                s_config := sb_config sessionData;
                s_messageCount := None;
                s_lastMessagePreview := None |}
      else None
  end.

(** [getSessionMessages(sessionId, limit, before?)]; [None] is a rejected
    promise ([DataError] of the range, or [TypeError] of [getAll] for a
    count above 2^32 - 1). [before || new Date()]: a [Date] is truthy.
    The embedding covers a [limit] that is a non-negative integer and a
    [before] that is a valid [Date] or omitted. *)
Definition getSessionMessages (now : Z) (db : ChatDB) (sessionId : string)
    (limit : nat) (before : option Z) : option (list Message) :=
  let upperBound := default now before in
  if bound_ok upperBound && (Z.of_nat limit <=? 4294967295) then
    let messages := sessionTimestamp_getAll db sessionId 0 upperBound (Some limit) in
    Some (take limit
            (js_sort (λ a b, m_timestamp b - m_timestamp a)
                     (message_of <$> messages)))
  else None.

(** [deleteSession(sessionId)] *)
Definition deleteSession (sessionId : string) (db : ChatDB) : ChatDB :=
  {| sessionsStore := delete sessionId (sessionsStore db);
     messagesStore :=
       foldl (λ store kb, delete kb.1 store) (messagesStore db)
             (sessionId_getAll db sessionId) |}.

(** [migrateFromLocalStorage()]: every session of the slot goes through
    [saveSession]; the slot itself is left as it is. [failAt = Some k] is a
    run whose [k]-th [saveSession] (from 0) rejects: the [catch] ends the
    run there, the sessions saved before stay saved. *)
Definition migrateFromLocalStorage (failAt : option nat)
    (slot : option SlotValue) (db : ChatDB) : ChatDB :=
  match slot with
  | Some (SessionsJson sessions) =>
      let saved := match failAt with
                   | None => sessions
                   | Some k => take k sessions
                   end in
      foldl (λ db session, saveSession session db) db saved
  | _ => db
  end.

(** What [getStorageStats] resolves to. *)
Record StorageStats := {
  totalSessions : Z;
  totalMessages : Z;
  estimatedSize : Z;
  oldestSession : option Z;
  newestSession : option Z
}.

(** [sessionStore.getAll()]: every record, in the order of the ids. *)
Definition session_id_le (x y : string * SessionBody) : Prop :=
  String.leb x.1 y.1 = true.

#[global] Instance session_id_le_dec x y : Decision (session_id_le x y).
Proof. unfold session_id_le. apply _. Defined.

Definition sessions_getAll (db : ChatDB) : list CompressedSession :=
  session_record <$> merge_sort session_id_le (map_to_list (sessionsStore db)).

(** [Math.min(...dates)] and [Math.max(...dates)] of a list that the code
    has found non-empty. *)
Definition min_date (dates : list Z) : option Z :=
  match dates with
  | [] => None
  | d :: ds => Some (foldl Z.min d ds)
  end.

Definition max_date (dates : list Z) : option Z :=
  match dates with
  | [] => None
  | d :: ds => Some (foldl Z.max d ds)
  end.

(** [getStorageStats()]: the two counts, 500 bytes for each message, and
    the range of the creation dates. *)
Definition getStorageStats (db : ChatDB) : StorageStats :=
  let totalSessions := Z.of_nat (size (sessionsStore db)) in
  let totalMessages := Z.of_nat (size (messagesStore db)) in
  let dates := cs_createdAt <$> sessions_getAll db in
  {| totalSessions := totalSessions;
     totalMessages := totalMessages;
     estimatedSize := totalMessages * 500;
     oldestSession := min_date dates;
     newestSession := max_date dates |}.

(** The calls as the hook sees them, with the faults of the engine.
    [getSessionWithMessages] catches what happens inside its transaction and
    answers [null]; [saveSession] and [deleteSession] rethrow. *)
Definition try_saveSession (f : Fault) (session : ChatSession) (db : ChatDB)
    : Outcome ChatDB :=
  match f with
  | NoFault => Resolved (saveSession session db)
  | _ => Rejected
  end.

Definition try_deleteSession (f : Fault) (sessionId : string) (db : ChatDB)
    : Outcome ChatDB :=
  match f with
  | NoFault => Resolved (deleteSession sessionId db)
  | _ => Rejected
  end.

Definition try_getSessionWithMessages (f : Fault) (now : Z) (db : ChatDB)
    (sessionId : string) : Outcome (option ChatSession) :=
  match f with
  | NoFault => Resolved (getSessionWithMessages now db sessionId)
  | TransactionFault => Resolved None
  | EngineFault => Rejected
  end.

Definition try_getAllSessions (f : Fault) (db : ChatDB)
    : Outcome (list CompressedSession) :=
  match f with
  | NoFault => Resolved (getAllSessions db)
  | _ => Rejected
  end.

(** [getStorageStats] answers a failure inside its transaction with zeros. *)
Definition try_getStorageStats (f : Fault) (db : ChatDB) : Outcome StorageStats :=
  match f with
  | NoFault => Resolved (getStorageStats db)
  | TransactionFault =>
      Resolved {| totalSessions := 0; totalMessages := 0; estimatedSize := 0;
                  oldestSession := None; newestSession := None |}
  | EngineFault => Rejected
  end.

End StorageManager.

(** ** The hook [useAdvancedStorage] *)

Module UseAdvancedStorage.

Inductive StorageType := indexeddb | localstorage | none.

(** [StorageState] ([stats] is of no concern here). *)
Record StorageState := {
  sessions : list ChatSession;
  isLoading : bool;
  error : option string;
  storageType : StorageType
}.

(** What the hook works on: the primary database, the fallback slot with
    the record of the [setItem] calls made on it (oldest first), and the
    React state. *)
Record World := {
  db : ChatDB;
  slot : option SlotValue;
  setItemCalls : list (list ChatSession);
  state : StorageState
}.

Definition initialState : StorageState :=
  {| sessions := []; isLoading := false; error := None; storageType := none |}.

Definition with_db (d : ChatDB) (w : World) : World :=
  {| db := d; slot := slot w; setItemCalls := setItemCalls w; state := state w |}.

Definition with_state (st : StorageState) (w : World) : World :=
  {| db := db w; slot := slot w; setItemCalls := setItemCalls w; state := st |}.

Definition set_sessions (l : list ChatSession) (w : World) : World :=
  with_state {| sessions := l; isLoading := isLoading (state w);
                error := error (state w); storageType := storageType (state w) |} w.

Definition set_error (e : option string) (w : World) : World :=
  with_state {| sessions := sessions (state w); isLoading := isLoading (state w);
                error := e; storageType := storageType (state w) |} w.

Definition set_storageType (t : StorageType) (w : World) : World :=
  with_state {| sessions := sessions (state w); isLoading := isLoading (state w);
                error := error (state w); storageType := t |} w.

Definition set_isLoading (b : bool) (w : World) : World :=
  with_state {| sessions := sessions (state w); isLoading := b;
                error := error (state w); storageType := storageType (state w) |} w.

(** [localStorage.removeItem('chatvortex-sessions')] *)
Definition removeItem (w : World) : World :=
  {| db := db w; slot := None; setItemCalls := setItemCalls w; state := state w |}.

(** How [localStorage.setItem] ends. *)
Inductive SetItemResult := Written | QuotaExceededError | OtherError.

Definition has_id (sessionId : string) (s : ChatSession) : bool :=
  String.eqb (s_id s) sessionId.

(** [sessions.some(s => s.id === session.id) ? sessions.map(...) : [session, ...sessions]] *)
Definition upsert (session : ChatSession) (l : list ChatSession) : list ChatSession :=
  if existsb (has_id (s_id session)) l
  then map (λ s, if has_id (s_id session) s then session else s) l
  else session :: l.

(** [sessions.filter(s => s.id !== sessionId)] *)
Definition without (sessionId : string) (l : list ChatSession) : list ChatSession :=
  List.filter (λ s, negb (has_id sessionId s)) l.

(** [sessions.find(s => s.id === sessionId) || null] *)
Definition find_session (sessionId : string) (l : list ChatSession) : option ChatSession :=
  List.find (has_id sessionId) l.

(** The message [saveToLocalStorage] puts into [state.error], and the one
    [initializeStorage] uses for an error without a message of its own. *)
Definition quotaMessage : string := "localStorage存储空间不足，请清理浏览器数据".
Definition initFailedMessage : string := "存储初始化失败".

(** [error instanceof Error ? error.message : '存储初始化失败']: [thrown] is
    the message of the value that was thrown when that value is an
    [Error], as a [DOMException] of the engine is. *)
Definition failureMessage (thrown : option string) : string :=
  default initFailedMessage thrown.

Section Fallback.

(** The answer of the browser to [setItem] of a session list: it depends on
    the size of the text and on what else the origin stores. *)
Variable setItemResult : list ChatSession -> SetItemResult.

(** [localStorage.setItem('chatvortex-sessions', JSON.stringify(sessions))] *)
Definition setItem (l : list ChatSession) (w : World) : World * SetItemResult :=
  match setItemResult l with
  | Written =>
      ({| db := db w; slot := Some (SessionsJson l);
          setItemCalls := setItemCalls w ++ [l]; state := state w |}, Written)
  | e =>
      ({| db := db w; slot := slot w;
          setItemCalls := setItemCalls w ++ [l]; state := state w |}, e)
  end.

(** [saveToLocalStorage(sessions)]: one [setItem]; a failure of any kind
    ends in [state.error]. *)
Definition saveToLocalStorage (l : list ChatSession) (w : World) : World :=
  match setItem l w with
  | (w', Written) => w'
  | (w', _) => set_error (Some quotaMessage) w'
  end.

(** [loadSessionsFromLocalStorage()] *)
Definition loadSessionsFromLocalStorage (w : World) : World :=
  match slot w with
  | Some (SessionsJson l) => set_sessions l w
  | _ => w
  end.

(** The test that sends a summary to repair:
    [typeof messageCount !== 'number' || !lastMessagePreview]. *)
Definition needs_repair (cs : CompressedSession) : bool :=
  match cs_messageCount cs with
  | Some _ => false
  | None => true
  end || negb (truthy (cs_preview cs)).

(** [messages[messages.length - 1]?.content?.slice(0, 100) || ''] *)
Definition preview_of (messages : list Message) : string :=
  or_default ((λ m, slice_prefix 100 (m_content m)) <$> last messages) "".

(** The summary the hook puts into its state. *)
Definition summary (cs : CompressedSession) (messageCount : option Z)
    (lastMessagePreview : option string) : ChatSession :=
  {| s_id := cs_id cs;
     s_title := cs_title cs;
     s_messages := [];
     s_createdAt := cs_createdAt cs;
     s_updatedAt := cs_updatedAt cs;
     s_layoutMode := cs_layoutMode cs;
     s_config := cs_config cs;
     s_messageCount := Some (default 0 messageCount);
     s_lastMessagePreview := Some (or_default lastMessagePreview "") |}.

(** The body of the [map] callback of [loadSessionsFromIndexedDB] for one
    stored summary: [fl] is the fault of its [getSessionWithMessages],
    [fs] the fault of its [saveSession]. *)
Definition loadSummary (now : Z) (fl fs : Fault) (cs : CompressedSession)
    (d : ChatDB) : ChatDB * ChatSession :=
  if needs_repair cs then
    match StorageManager.try_getSessionWithMessages fl now d (cs_id cs) with
    | Resolved (Some fullSession) =>
        let messageCount := Z.of_nat (length (s_messages fullSession)) in
        let lastMessagePreview := preview_of (s_messages fullSession) in
        match StorageManager.try_saveSession fs fullSession d with
        | Resolved d' => (d', summary cs (Some messageCount) (Some lastMessagePreview))
        | Rejected => (d, summary cs (Some 0) (Some ""%string))
        end
    | Resolved None => (d, summary cs (cs_messageCount cs) (cs_preview cs))
    | Rejected => (d, summary cs (Some 0) (Some ""%string))
    end
  else (d, summary cs (cs_messageCount cs) (cs_preview cs)).

Fixpoint loadSummaries (now : Z) (faults : string -> Fault * Fault)
    (l : list CompressedSession) (d : ChatDB) : ChatDB * list ChatSession :=
  match l with
  | [] => (d, [])
  | cs :: l' =>
      let '(d1, s) := loadSummary now (faults (cs_id cs)).1 (faults (cs_id cs)).2 cs d in
      let '(d2, ss) := loadSummaries now faults l' d1 in
      (d2, s :: ss)
  end.

(** [loadSessionsFromIndexedDB()]; a failing [getAllSessions] is rethrown. *)
Definition loadSessionsFromIndexedDB (now : Z) (listFault : Fault)
    (faults : string -> Fault * Fault) (w : World) : Outcome World :=
  match StorageManager.try_getAllSessions listFault (db w) with
  | Rejected => Rejected
  | Resolved compressedSessions =>
      let '(d, l) := loadSummaries now faults compressedSessions (db w) in
      Resolved (set_sessions l (with_db d w))
  end.

(** The migration step of [initializeStorage]: when the slot holds
    something, [migrateFromLocalStorage], then [removeItem]. *)
Definition migrateIfNeeded (failAt : option nat) (w : World) : World :=
  if slot_truthy (slot w)
  then removeItem
         (with_db (StorageManager.migrateFromLocalStorage failAt (slot w) (db w)) w)
  else w.

(** How the primary engine presents itself at start-up. *)
Inductive Engine := Unavailable | OpenFails | Opens.

(** [initializeStorage()]; [thrown] describes the value that a failing
    open or a failing listing of the sessions throws. *)
Definition initializeStorage (thrown : option string) (engine : Engine)
    (failAt : option nat) (now : Z)
    (listFault : Fault) (faults : string -> Fault * Fault) (w : World) : World :=
  let w0 := set_error None (set_isLoading true w) in
  let fallback w :=
    loadSessionsFromLocalStorage
      (set_storageType localstorage (set_error (Some (failureMessage thrown)) w)) in
  set_isLoading false
    match engine with
    | Unavailable => loadSessionsFromLocalStorage (set_storageType localstorage w0)
    | OpenFails => fallback w0
    | Opens =>
        let w1 := set_storageType indexeddb (migrateIfNeeded failAt w0) in
        match loadSessionsFromIndexedDB now listFault faults w1 with
        | Resolved w2 => w2
        | Rejected => fallback w1
        end
    end.

(** [saveSession(session)] of the hook; [f] is the fault of the primary
    call. *)
Definition saveSession (f : Fault) (session : ChatSession) (w : World) : World :=
  match storageType (state w) with
  | indexeddb =>
      match StorageManager.try_saveSession f session (db w) with
      | Resolved d => set_sessions (upsert session (sessions (state w))) (with_db d w)
      | Rejected =>
          saveToLocalStorage
            (session :: without (s_id session) (sessions (state w))) w
      end
  | _ =>
      let updatedSessions := upsert session (sessions (state w)) in
      set_sessions updatedSessions (saveToLocalStorage updatedSessions w)
  end.

(** [loadSession(sessionId)] of the hook. *)
Definition loadSession (f : Fault) (now : Z) (sessionId : string) (w : World)
    : option ChatSession :=
  match storageType (state w) with
  | indexeddb =>
      match StorageManager.try_getSessionWithMessages f now (db w) sessionId with
      | Resolved r => r
      | Rejected => find_session sessionId (sessions (state w))
      end
  | _ => find_session sessionId (sessions (state w))
  end.

(** [deleteSession(sessionId)] of the hook. *)
Definition deleteSession (f : Fault) (sessionId : string) (w : World) : World :=
  let w1 :=
    match storageType (state w) with
    | indexeddb =>
        match StorageManager.try_deleteSession f sessionId (db w) with
        | Resolved d => with_db d w
        | Rejected => w
        end
    | _ => w
    end in
  let updatedSessions := without sessionId (sessions (state w)) in
  let w2 :=
    match storageType (state w) with
    | localstorage => saveToLocalStorage updatedSessions w1
    | _ => w1
    end in
  set_sessions updatedSessions w2.

(** [refreshSessions()]; a rejection leaves the state as it is. *)
Definition refreshSessions (now : Z) (listFault : Fault)
    (faults : string -> Fault * Fault) (w : World) : World :=
  match storageType (state w) with
  | indexeddb =>
      match loadSessionsFromIndexedDB now listFault faults w with
      | Resolved w' => w'
      | Rejected => w
      end
  | _ => loadSessionsFromLocalStorage w
  end.

(** [migrateData()] of the hook: [migrateFromLocalStorage], then
    [refreshSessions]. *)
Definition migrateData (failAt : option nat) (now : Z) (listFault : Fault)
    (faults : string -> Fault * Fault) (w : World) : World :=
  match storageType (state w) with
  | indexeddb =>
      refreshSessions now listFault faults
        (with_db (StorageManager.migrateFromLocalStorage failAt (slot w) (db w)) w)
  | _ => w
  end.

End Fallback.

End UseAdvancedStorage.

(** ** The sessions-save effect of the chat page *)

Module ChatPage.

Import UseAdvancedStorage.

Record Page := {
  storage : World;
  isMounted : bool;
  currentSessionId : option string
}.

(** How a run of the effect ends. It never throws: every [setItem] sits in
    a [try], and the [catch] of the retry only writes to the console. *)
Inductive EffectEnd :=
  | NotMounted
  | Saved
  | FailedOther
  | TruncatedAndSaved
  | RetryFailed.

Section Effect.

Variable setItemResult : list ChatSession -> SetItemResult.

(** [sessions.slice(0, 6)] *)
Definition recentSessions (l : list ChatSession) : list ChatSession := take 6 l.

(** The effect on [sessions]: write them all; on [QuotaExceededError] write
    the first six, refresh, and drop a current session that is gone. *)
Definition saveSessionsEffect (now : Z) (listFault : Fault)
    (faults : string -> Fault * Fault) (p : Page) : Page * EffectEnd :=
  if isMounted p then
    let l := sessions (state (storage p)) in
    match setItem setItemResult l (storage p) with
    | (w1, Written) =>
        ({| storage := w1; isMounted := true;
            currentSessionId := currentSessionId p |}, Saved)
    | (w1, QuotaExceededError) =>
        match setItem setItemResult (recentSessions l) w1 with
        | (w2, Written) =>
            let w3 := refreshSessions now listFault faults w2 in
            let current :=
              if truthy (currentSessionId p) &&
                 negb (existsb (λ s, bool_decide (Some (s_id s) = currentSessionId p))
                               (recentSessions l))
              then None else currentSessionId p in
            ({| storage := w3; isMounted := true; currentSessionId := current |},
             TruncatedAndSaved)
        | (w2, _) =>
            ({| storage := w2; isMounted := true;
                currentSessionId := currentSessionId p |}, RetryFailed)
        end
    | (w1, OtherError) =>
        ({| storage := w1; isMounted := true;
            currentSessionId := currentSessionId p |}, FailedOther)
    end
  else (p, NotMounted).

End Effect.

(** [HistoryModal], which every render of the page renders with the
    [sessions] of the hook state, sorts that array in place:
    [sessions.sort((a, b) => b.updatedAt.getTime() - a.updatedAt.getTime())]. *)
Definition sortedSessions (sessions : list ChatSession) : list ChatSession :=
  js_sort (λ a b, s_updatedAt b - s_updatedAt a) sessions.

(** A render of the page. The effects of the page run after it, on the
    array that [HistoryModal] has sorted. *)
Definition render (p : Page) : Page :=
  {| storage := set_sessions (sortedSessions (sessions (state (storage p)))) (storage p);
     isMounted := isMounted p;
     currentSessionId := currentSessionId p |}.

(** [getVisibleMessages(messages)]: all of them when they are at most
    [visibleMessageCount], else [messages.slice(-visibleMessageCount)],
    where [slice(-0)] is the whole array. *)
Definition getVisibleMessages (visibleMessageCount : nat) (messages : list Message)
    : list Message :=
  if decide (length messages ≤ visibleMessageCount)%nat then messages
  else match visibleMessageCount with
       | O => messages
       | S _ => drop (length messages - visibleMessageCount) messages
       end.

(** The new [visibleMessageCount] of [loadMoreMessages()], which does
    nothing while a load is under way: [Math.min(prev + 10, messageCount)]
    for the messages of the current session. *)
Definition loadMoreMessages (isLoadingMore : bool) (messages : list Message)
    (visibleMessageCount : nat) : nat :=
  if isLoadingMore then visibleMessageCount
  else Nat.min (visibleMessageCount + 10) (length messages).

(** [resetVisibleMessages()] *)
Definition resetVisibleMessages : nat := 10.

End ChatPage.

(** ** The model-list cache ([lib/api.ts]) *)

Module ModelsApi.

Record ModelInfo := {
  mi_id : string;
  mi_object : string;
  mi_created : Z;
  mi_owned_by : string
}.

(** The value of [modelsCache] when it is not [null]. *)
Record ModelsCache := {
  data : list ModelInfo;
  timestamp : Z;
  cacheKey : string
}.

(** 24 hours, in milliseconds. *)
Definition CACHE_DURATION : Z := 24 * 60 * 60 * 1000.

(** What [localStorage] holds under ['chatvortex-models-cache']: a text that
    does not parse to a cache object, or the text of one. *)
Inductive CacheText :=
  | CacheUnparsable
  | CacheJson (c : ModelsCache).

(** The answer of the server to [GET baseUrl/models]. *)
Inductive Response :=
  | NetworkError
  | NotOk (status : Z)
  | Ok (body : list ModelInfo).

(** The module state, the cache slot, and the requests sent (oldest first). *)
Record Api := {
  modelsCache : option ModelsCache;
  cacheSlot : option CacheText;
  requests : list string
}.

Inductive Result :=
  | Returns (models : list ModelInfo)
  | Throws.

(** [loadModelsCache()]: the parsed cache when [data], [timestamp] and
    [cacheKey] are all truthy. *)
Definition loadModelsCache (a : Api) : option ModelsCache :=
  match cacheSlot a with
  | Some (CacheJson c) =>
      if negb (timestamp c =? 0) && negb (String.eqb (cacheKey c) "")
      then Some c else None
  | _ => None
  end.

(** [s.includes(sub)] *)
Definition includes (s sub : string) : bool :=
  match String.index 0 sub s with
  | Some _ => true
  | None => false
  end.

(** [`${apiKey.slice(-10)}_${baseUrl}`] *)
Definition cacheKeyOf (apiKey baseUrl : string) : string :=
  (slice_last 10 apiKey ++ "_" ++ baseUrl)%string.

Section Fetch.

(** [String.prototype.toLowerCase] and [localeCompare] are the host's. *)
Variable toLowerCase : string -> string.
Variable localeCompare : string -> string -> Z.

Definition isChatModel (m : ModelInfo) : bool :=
  let id := toLowerCase (mi_id m) in
  (includes id "gpt" || includes id "claude" || includes id "o1" ||
   includes id "o3" || includes id "o4" || includes id "chatgpt") &&
  negb (includes id "embedding") && negb (includes id "tts") &&
  negb (includes id "dall-e") && negb (includes id "whisper") &&
  negb (includes id "vision") && negb (includes id "image").

Definition getProviderPriority (ownedBy : string) : Z :=
  if String.eqb ownedBy "openai" then 1
  else if String.eqb ownedBy "anthropic" then 2
  else if String.eqb ownedBy "google gemini" then 3
  else if String.eqb ownedBy "deepseek" then 4
  else if String.eqb ownedBy "aws" then 5
  else if String.eqb ownedBy "vertexai" then 6
  else 10.

Definition getModelPriority (id : string) : Z :=
  if includes id "gpt-5" then 1
  else if includes id "gpt-4" then 2
  else if includes id "o1" || includes id "o3" || includes id "o4" then 3
  else if includes id "claude" then 4
  else if includes id "gpt-3.5" then 5
  else 6.

(** [acc[acc.indexOf(existing)] = current] for the first model of that id *)
Fixpoint replace_first (current : ModelInfo) (acc : list ModelInfo) : list ModelInfo :=
  match acc with
  | [] => []
  | m :: acc' =>
      if String.eqb (mi_id m) (mi_id current) then current :: acc'
      else m :: replace_first current acc'
  end.

(** One step of the [reduce] that removes duplicates. *)
Definition dedupe_step (acc : list ModelInfo) (current : ModelInfo) : list ModelInfo :=
  match List.find (λ m, String.eqb (mi_id m) (mi_id current)) acc with
  | None => acc ++ [current]
  | Some existing =>
      if getProviderPriority (mi_owned_by current) <? getProviderPriority (mi_owned_by existing)
      then replace_first current acc
      else acc
  end.

Definition compareModels (a b : ModelInfo) : Z :=
  if negb (getModelPriority (mi_id a) =? getModelPriority (mi_id b))
  then getModelPriority (mi_id a) - getModelPriority (mi_id b)
  else localeCompare (mi_id a) (mi_id b).

(** The list made of a response body: filter, remove duplicates, sort. *)
Definition chatModels (body : list ModelInfo) : list ModelInfo :=
  js_sort compareModels (foldl dedupe_step [] (List.filter isChatModel body)).

(** [saveModelsCache(cache)]; a failing [setItem] is only warned about. *)
Definition saveModelsCache (writes : bool) (c : ModelsCache) (a : Api) : Api :=
  if writes
  then {| modelsCache := modelsCache a; cacheSlot := Some (CacheJson c);
          requests := requests a |}
  else a.

(** The cache test of [fetchAvailableModels]:
    [cacheKey === key && (now - timestamp) < CACHE_DURATION]. *)
Definition cacheValid (now : Z) (key : string) (c : ModelsCache) : bool :=
  String.eqb (cacheKey c) key && (now - timestamp c <? CACHE_DURATION).

(** The part of [fetchAvailableModels] after a cache miss: one request; a
    good answer replaces the cache, anything else is thrown. *)
Definition fetchAndCache (now : Z) (response : Response) (writes : bool)
    (key baseUrl : string) (a : Api) : Api * Result :=
  let a' := {| modelsCache := modelsCache a; cacheSlot := cacheSlot a;
               requests := requests a ++ [(baseUrl ++ "/models")%string] |} in
  match response with
  | Ok body =>
      let fresh := {| data := chatModels body; timestamp := now; cacheKey := key |} in
      (saveModelsCache writes fresh
         {| modelsCache := Some fresh; cacheSlot := cacheSlot a';
            requests := requests a' |},
       Returns (chatModels body))
  | _ => (a', Throws)
  end.

(** [fetchAvailableModels(apiKey, baseUrl)]: [now] is [Date.now()],
    [response] what the server answers if it is asked, [writes] whether
    the cache slot takes a write. *)
Definition fetchAvailableModels (now : Z) (response : Response) (writes : bool)
    (apiKey baseUrl : string) (a : Api) : Api * Result :=
  if String.eqb apiKey "" then (a, Throws)
  else
    let key := cacheKeyOf apiKey baseUrl in
    let a1 := {| modelsCache := match modelsCache a with
                                | Some c => Some c
                                | None => loadModelsCache a
                                end;
                 cacheSlot := cacheSlot a; requests := requests a |} in
    match modelsCache a1 with
    | Some c =>
        if cacheValid now key c then (a1, Returns (data c))
        else fetchAndCache now response writes key baseUrl a1
    | None => fetchAndCache now response writes key baseUrl a1
    end.

End Fetch.

(** [clearModelsCache()]; [removes] tells whether [removeItem] went
    through (a failure is only warned about). *)
Definition clearModelsCache (removes : bool) (a : Api) : Api :=
  {| modelsCache := None;
     cacheSlot := if removes then None else cacheSlot a;
     requests := requests a |}.

End ModelsApi.

(** ** The context sent to the model ([lib/api.ts]) *)

Module ChatContext.

Inductive ApiRole := role_system | role_user | role_assistant.

Record ChatCompletionMessage := {
  role : ApiRole;
  content : string
}.

(** [Math.ceil(text.length / 4)] *)
Definition estimateTokens (text : string) : Z :=
  Z.of_nat ((String.length text + 3) / 4).

(** [{role: msg.role === 'user' ? 'user' : 'assistant', content: msg.content}] *)
Definition apiMessage (msg : Message) : ChatCompletionMessage :=
  {| role := match m_role msg with user => role_user | assistant => role_assistant end;
     content := m_content msg |}.

(** [convertMessagesToAPI(messages)] *)
Definition convertMessagesToAPI (messages : list Message) : list ChatCompletionMessage :=
  apiMessage <$> messages.

Section Trim.

(** [overBudget t] is the test [t > maxTokens * 0.8], a comparison of
    doubles that the host makes. *)
Variable overBudget : Z -> bool.

(** The loop over the reversed messages: [break] at the first message
    that would go over the budget, else [unshift] it. *)
Fixpoint trimLoop (reversedMessages : list Message) (totalTokens : Z)
    (apiMessages : list ChatCompletionMessage) : list ChatCompletionMessage :=
  match reversedMessages with
  | [] => apiMessages
  | msg :: rest =>
      let messageTokens := estimateTokens (m_content msg) in
      if overBudget (totalTokens + messageTokens) then apiMessages
      else trimLoop rest (totalTokens + messageTokens) (apiMessage msg :: apiMessages)
  end.

(** [trimMessagesForContext(messages, maxTokens, systemPrompt)] *)
Definition trimMessagesForContext (messages : list Message)
    (systemPrompt : option string) : list ChatCompletionMessage :=
  let apiMessages :=
    if truthy systemPrompt
    then [{| role := role_system; content := default ""%string systemPrompt |}]
    else [] in
  let totalTokens :=
    if truthy systemPrompt then estimateTokens (default ""%string systemPrompt) else 0 in
  trimLoop (rev messages) totalTokens apiMessages.

End Trim.

(** The estimate for a run of messages. *)
Definition tokensOf (messages : list Message) : Z :=
  foldr (λ msg t, estimateTokens (m_content msg) + t) 0 messages.

End ChatContext.

(** * Scenarios

    Concrete sessions and stores on which the operations are run. *)

Module Scenario.

Definition message (id : string) (content : string) (r : Role) (t : Z) : Message :=
  {| m_id := id; m_content := content; m_role := r; m_timestamp := t;
     m_isTyping := None; m_isStreaming := None |}.

Definition session (id title : string) (messages : list Message) (updatedAt : Z)
    : ChatSession :=
  {| s_id := id; s_title := title; s_messages := messages;
     s_createdAt := 0; s_updatedAt := updatedAt;
     s_layoutMode := None; s_config := None;
     s_messageCount := None; s_lastMessagePreview := None |}.

(** Scenario A of the specification. *)
Definition hi := message "m1" "hi" user 1000.
Definition hello := message "m2" "hello!" assistant 2000.
Definition S1 := session "S1" "hello" [hi; hello] 2000.

(** A clock reading between the dates of the two messages of [S1]. *)
Definition clock : Z := 1500.

(** [S1] after its answer has been taken back. *)
Definition S1_shorter := session "S1" "hello" [hi] 3000.

(** A session saved while its answer is still being streamed: the page
    appends an assistant message with empty content and saves. *)
Definition pending :=
  {| m_id := "m2"; m_content := ""; m_role := assistant; m_timestamp := 2000;
     m_isTyping := None; m_isStreaming := Some true |}.
Definition S1_streaming := session "S1" "hello" [hi; pending] 2000.

(** The store after [S1] was saved by a version that wrote no summary
    fields, and a hook on it. *)
Definition legacyRecord : CompressedSession :=
  {| cs_id := "S1"; cs_title := "hello"; cs_createdAt := 0; cs_updatedAt := 2000;
     cs_layoutMode := None; cs_config := None; cs_lastMessagePreview := None;
     cs_messageCount := None; cs_lastMessageId := None; cs_preview := None |}.

Definition legacyDB : ChatDB :=
  put_session legacyRecord (StorageManager.saveSession S1 emptyDB).

Definition legacy : UseAdvancedStorage.World :=
  {| UseAdvancedStorage.db := legacyDB;
     UseAdvancedStorage.slot := None;
     UseAdvancedStorage.setItemCalls := [];
     UseAdvancedStorage.state :=
       {| UseAdvancedStorage.sessions := [];
          UseAdvancedStorage.isLoading := false;
          UseAdvancedStorage.error := None;
          UseAdvancedStorage.storageType := UseAdvancedStorage.indexeddb |} |}.

(** Scenario B of the specification: a session of seven messages, one a
    second, and a clock reading after all of them. *)
Definition t1 := message "a" "one" user 1000.
Definition t2 := message "b" "two" assistant 2000.
Definition t3 := message "c" "three" user 3000.
Definition t4 := message "d" "four" assistant 4000.
Definition t5 := message "e" "five" user 5000.
Definition t6 := message "f" "six" assistant 6000.
Definition t7 := message "g" "seven" user 7000.
Definition S7 := session "S7" "seven" [t1; t2; t3; t4; t5; t6; t7] 7000.
Definition db7 : ChatDB := StorageManager.saveSession S7 emptyDB.
Definition later : Z := 10000.

(** The caller of property P3: ask for a page, then for the page before the
    oldest timestamp of the page just received, [n] times in all, stopping
    at an empty page or a rejected call. *)
Fixpoint pageChain (n : nat) (now : Z) (db : ChatDB) (sessionId : string)
    (limit : nat) (before : option Z) : list (list Message) :=
  match n with
  | O => []
  | S n' =>
      match StorageManager.getSessionMessages now db sessionId limit before with
      | Some page =>
          page :: match last page with
                  | Some oldest =>
                      pageChain n' now db sessionId limit (Some (m_timestamp oldest))
                  | None => []
                  end
      | None => []
      end
  end.

(** A hook on the primary store whose fallback slot still holds [S1]. *)
Definition leftover : UseAdvancedStorage.World :=
  {| UseAdvancedStorage.db := emptyDB;
     UseAdvancedStorage.slot := Some (SessionsJson [S1]);
     UseAdvancedStorage.setItemCalls := [];
     UseAdvancedStorage.state :=
       {| UseAdvancedStorage.sessions := [S1_shorter];
          UseAdvancedStorage.isLoading := false;
          UseAdvancedStorage.error := None;
          UseAdvancedStorage.storageType := UseAdvancedStorage.indexeddb |} |}.

Definition noFaults : string -> Fault * Fault := λ _, (NoFault, NoFault).

(** A browser that takes every write, and one whose quota is used up. *)
Definition roomy : list ChatSession -> UseAdvancedStorage.SetItemResult :=
  λ _, UseAdvancedStorage.Written.
Definition full : list ChatSession -> UseAdvancedStorage.SetItemResult :=
  λ _, UseAdvancedStorage.QuotaExceededError.

(** Scenario C of the specification: eight sessions as the hook state
    holds them before the page renders, the newest created first, and the
    oldest of them, [c1], replaced in its place by the hook's [saveSession]
    and so the one updated last. *)
Definition c1 := session "c1" "first" [] 9000.
Definition c2 := session "c2" "second" [] 2000.
Definition c3 := session "c3" "third" [] 3000.
Definition c4 := session "c4" "fourth" [] 4000.
Definition c5 := session "c5" "fifth" [] 5000.
Definition c6 := session "c6" "sixth" [] 6000.
Definition c7 := session "c7" "seventh" [] 7000.
Definition c8 := session "c8" "eighth" [] 8000.

Definition eight : UseAdvancedStorage.World :=
  {| UseAdvancedStorage.db := emptyDB;
     UseAdvancedStorage.slot := None;
     UseAdvancedStorage.setItemCalls := [];
     UseAdvancedStorage.state :=
       {| UseAdvancedStorage.sessions := [c8; c7; c6; c5; c4; c3; c2; c1];
          UseAdvancedStorage.isLoading := false;
          UseAdvancedStorage.error := None;
          UseAdvancedStorage.storageType := UseAdvancedStorage.localstorage |} |}.

Definition page8 : ChatPage.Page :=
  {| ChatPage.storage := eight; ChatPage.isMounted := true;
     ChatPage.currentSessionId := Some "c1"%string |}.

(** A browser with room for six sessions. *)
Definition sixFit : list ChatSession -> UseAdvancedStorage.SetItemResult :=
  λ l, if decide (length l ≤ 6)%nat then UseAdvancedStorage.Written
       else UseAdvancedStorage.QuotaExceededError.

(** A model list cached one hour before the clock reading [later], and
    the same list cached 24 hours before it. *)
Definition gpt4 : ModelsApi.ModelInfo :=
  {| ModelsApi.mi_id := "gpt-4"; ModelsApi.mi_object := "model";
     ModelsApi.mi_created := 0; ModelsApi.mi_owned_by := "openai" |}.

Definition hourOld : ModelsApi.Api :=
  {| ModelsApi.modelsCache :=
       Some {| ModelsApi.data := [gpt4]; ModelsApi.timestamp := later - 3600000;
               ModelsApi.cacheKey := "0123456789_https://api" |};
     ModelsApi.cacheSlot := None;
     ModelsApi.requests := [] |}.

Definition dayOld : ModelsApi.Api :=
  {| ModelsApi.modelsCache :=
       Some {| ModelsApi.data := [gpt4]; ModelsApi.timestamp := later - 86400000;
               ModelsApi.cacheKey := "0123456789_https://api" |};
     ModelsApi.cacheSlot := None;
     ModelsApi.requests := [] |}.

(** A session that reuses the id of the oldest message of [S7]. *)
Definition S1_reusing := session "S1" "hello" [message "a" "mine" user 1500] 2000.

(** A fallback slot with two sessions, as a hook before start-up finds it. *)
Definition beforeStartup : UseAdvancedStorage.World :=
  {| UseAdvancedStorage.db := emptyDB;
     UseAdvancedStorage.slot := Some (SessionsJson [S1; S7]);
     UseAdvancedStorage.setItemCalls := [];
     UseAdvancedStorage.state := UseAdvancedStorage.initialState |}.

End Scenario.


(** * Statements *)




(** The cache that a call of [fetchAvailableModels] consults: the module
    variable, filled from the cache slot when it is [null]. *)
Definition consulted (a : ModelsApi.Api) : option ModelsApi.ModelsCache :=
  match ModelsApi.modelsCache a with
  | Some c => Some c
  | None => ModelsApi.loadModelsCache a
  end.

(** A consulted entry under the key of the call and younger than the
    cache duration. *)
Definition fresh_entry (now : Z) (apiKey baseUrl : string) (a : ModelsApi.Api) : Prop :=
  ∃ c, consulted a = Some c ∧
       ModelsApi.cacheKey c = ModelsApi.cacheKeyOf apiKey baseUrl ∧
       now - ModelsApi.timestamp c < ModelsApi.CACHE_DURATION.

(** A run of upserts into a store. *)
Definition upserts {V} (m : gmap string V) (ops : list (string * V)) : gmap string V :=
  foldl (λ m kv, <[kv.1 := kv.2]> m) m ops.

(** The upserts that migrating a list of sessions makes in each store. *)
Definition session_writes (l : list ChatSession) : list (string * SessionBody) :=
  (λ s, (s_id s, session_body (StorageManager.compress s))) <$> l.

Definition message_writes (l : list ChatSession) : list (string * MessageBody) :=
  l ≫= λ s, (λ m, (m_id m, message_body (s_id s) m)) <$> s_messages s.

(** * Properties *)

(** ** The stable sort *)

Section js_sort_facts.
Context {A : Type} (cmp : A -> A -> Z).

Lemma sort_insert_Permutation x l : sort_insert cmp x l ≡ₚ x :: l.
Proof.
  induction l as [|y l IH]; simpl; [done|].
  destruct (cmp x y <=? 0); [done|].
  rewrite IH. apply perm_swap.
Qed.

Lemma js_sort_Permutation l : js_sort cmp l ≡ₚ l.
Proof.
  induction l as [|x l IH]; simpl; [done|].
  by rewrite sort_insert_Permutation, IH.
Qed.

Lemma js_sort_elem_of x l : x ∈ js_sort cmp l ↔ x ∈ l.
Proof. by rewrite js_sort_Permutation. Qed.

Lemma js_sort_length l : length (js_sort cmp l) = length l.
Proof. by rewrite js_sort_Permutation. Qed.

Hypothesis cmp_total : ∀ x y, cmp x y ≤ 0 ∨ cmp y x ≤ 0.

Lemma sort_insert_HdRel a x l :
  ordered cmp a x → HdRel (ordered cmp) a l → HdRel (ordered cmp) a (sort_insert cmp x l).
Proof.
  intros Hax Hal. destruct l as [|y l]; simpl; [by constructor|].
  destruct (cmp x y <=? 0); constructor; [done|].
  by inversion Hal.
Qed.

Lemma sort_insert_Sorted x l :
  Sorted (ordered cmp) l → Sorted (ordered cmp) (sort_insert cmp x l).
Proof.
  induction 1 as [|y l Hl IH Hy]; simpl; [by repeat constructor|].
  destruct (cmp x y <=? 0) eqn:E.
  - apply Z.leb_le in E. by repeat constructor.
  - apply Z.leb_gt in E. constructor; [done|].
    apply sort_insert_HdRel; [|done].
    destruct (cmp_total x y); [lia|done].
Qed.

Lemma js_sort_Sorted l : Sorted (ordered cmp) (js_sort cmp l).
Proof.
  induction l as [|x l IH]; simpl; [constructor|].
  by apply sort_insert_Sorted.
Qed.
End js_sort_facts.

Lemma Sorted_weaken {A} (R R' : relation A) l :
  (∀ x y, R x y → R' x y) → Sorted R l → Sorted R' l.
Proof.
  intros HR. induction 1 as [|x l Hl IH Hx]; constructor; [done|].
  destruct Hx; constructor; auto.
Qed.

Lemma Sorted_take {A} (R : relation A) n l : Sorted R l → Sorted R (take n l).
Proof.
  intros Hl. revert n. induction Hl as [|x l Hl IH Hx]; intros [|n]; simpl;
    try constructor; [apply IH|].
  destruct Hx; destruct n; simpl; by constructor.
Qed.

(** ** The stores *)

#[global] Instance message_key_le_total : Total message_key_le.
Proof.
  intros [k1 b1] [k2 b2]. unfold message_key_le, message_key_leb. simpl.
  destruct (Z.lt_trichotomy (mb_timestamp b1) (mb_timestamp b2)) as [H|[H|H]].
  - left. apply orb_true_iff. left. by apply Z.ltb_lt.
  - destruct (String.leb_total k1 k2) as [Hk|Hk]; [left|right];
      apply orb_true_iff; right; apply andb_true_iff; split; try done;
      apply Z.eqb_eq; lia.
  - right. apply orb_true_iff. left. by apply Z.ltb_lt.
Qed.

#[global] Instance session_key_le_total : Total session_key_le.
Proof.
  intros [k1 b1] [k2 b2]. unfold session_key_le, session_key_leb. simpl.
  destruct (Z.lt_trichotomy (sb_updatedAt b1) (sb_updatedAt b2)) as [H|[H|H]].
  - left. apply orb_true_iff. left. by apply Z.ltb_lt.
  - destruct (String.leb_total k1 k2) as [Hk|Hk]; [left|right];
      apply orb_true_iff; right; apply andb_true_iff; split; try done;
      apply Z.eqb_eq; lia.
  - right. apply orb_true_iff. left. by apply Z.ltb_lt.
Qed.


Lemma message_of_body sid m : message_of (m_id m, message_body sid m) = m.
Proof. by destruct m. Qed.

Lemma session_record_body cs : session_record (cs_id cs, session_body cs) = cs.
Proof. by destruct cs. Qed.

Lemma getAll_count_sublist {A} count (l : list A) : getAll_count count l `sublist_of` l.
Proof. destruct count as [[|n]|]; simpl; try done. apply sublist_take. Qed.

Lemma getAll_count_elem_of {A} count (l : list A) x : x ∈ getAll_count count l → x ∈ l.
Proof. intros H. eapply elem_of_sublist; [done|apply getAll_count_sublist]. Qed.

(** A record of a range scan is a record of the store, and in the range. *)
Lemma sessionTimestamp_getAll_elem_of db sid lo hi count kb :
  kb ∈ sessionTimestamp_getAll db sid lo hi count →
  messagesStore db !! kb.1 = Some kb.2 ∧ in_range sid lo hi kb.
Proof.
  intros H. apply getAll_count_elem_of in H.
  rewrite merge_sort_Permutation in H.
  apply list_elem_of_filter in H as [Hr H]. split; [|done].
  destruct kb. by apply elem_of_map_to_list.
Qed.

Lemma sessionTimestamp_getAll_all db sid lo hi kb :
  kb ∈ sessionTimestamp_getAll db sid lo hi None ↔
  messagesStore db !! kb.1 = Some kb.2 ∧ in_range sid lo hi kb.
Proof.
  unfold sessionTimestamp_getAll. simpl.
  rewrite merge_sort_Permutation, list_elem_of_filter.
  destruct kb. rewrite elem_of_map_to_list. tauto.
Qed.

Lemma sessionTimestamp_getAll_NoDup db sid lo hi count :
  NoDup (sessionTimestamp_getAll db sid lo hi count).
Proof.
  eapply sublist_NoDup; [|apply getAll_count_sublist].
  rewrite merge_sort_Permutation.
  apply NoDup_filter, NoDup_map_to_list.
Qed.

Lemma message_of_inj_on db kb1 kb2 :
  messagesStore db !! kb1.1 = Some kb1.2 →
  messagesStore db !! kb2.1 = Some kb2.2 →
  message_of kb1 = message_of kb2 → kb1 = kb2.
Proof.
  destruct kb1 as [k1 b1], kb2 as [k2 b2]. simpl.
  intros H1 H2 Heq. assert (k1 = k2) as -> by by inversion Heq.
  congruence.
Qed.

(** ** [saveSession] *)

Module SaveFacts.
Import StorageManager.

Lemma sessionsStore_put_messages sid l d :
  sessionsStore (foldl (put_message sid) d l) = sessionsStore d.
Proof. revert d. induction l as [|m l IH]; intros d; simpl; [done|]. by rewrite IH. Qed.

Lemma messagesStore_put_messages sid l d :
  messagesStore (foldl (put_message sid) d l) =
  foldl (λ st m, <[m_id m := message_body sid m]> st) (messagesStore d) l.
Proof. revert d. induction l as [|m l IH]; intros d; simpl; [done|]. by rewrite IH. Qed.

Lemma sessionsStore_saveSession s d :
  sessionsStore (saveSession s d) = <[s_id s := session_body (compress s)]> (sessionsStore d).
Proof. unfold saveSession. by rewrite sessionsStore_put_messages. Qed.

Lemma messagesStore_saveSession s d :
  messagesStore (saveSession s d) =
  foldl (λ st m, <[m_id m := message_body (s_id s) m]> st) (messagesStore d) (s_messages s).
Proof. unfold saveSession. by rewrite messagesStore_put_messages. Qed.

Lemma lookup_put_messages_other sid l (st : gmap string MessageBody) k :
  k ∉ m_id <$> l →
  foldl (λ st m, <[m_id m := message_body sid m]> st) st l !! k = st !! k.
Proof.
  revert st. induction l as [|m l IH]; intros st Hk; simpl; [done|].
  rewrite fmap_cons, not_elem_of_cons in Hk. destruct Hk as [Hne Hk].
  rewrite IH by done. by rewrite lookup_insert_ne.
Qed.


End SaveFacts.

(** ** Round trip through the primary store *)

Section roundtrip.
Import StorageManager SaveFacts.


End roundtrip.

Section roundtrip_theorems.
Import StorageManager SaveFacts.

(** What is in a loaded session and in a page: messages of the store, of
    that session, dated inside the scanned range. *)
Lemma getSessionWithMessages_elem_of now db sid loaded m :
  getSessionWithMessages now db sid = Some loaded →
  m ∈ s_messages loaded →
  ∃ b, messagesStore db !! m_id m = Some b ∧ mb_sessionId b = sid ∧
       0 ≤ m_timestamp m ≤ now ∧ m = message_of (m_id m, b).
Proof.
  unfold getSessionWithMessages. intros Hload Hin.
  destruct (sessionsStore db !! sid); [|done].
  destruct (bound_ok now); [|done]. injection Hload as <-.
  apply js_sort_elem_of, list_elem_of_fmap in Hin as ([k b] & -> & Hin).
  apply (sessionTimestamp_getAll_elem_of db sid 0 now None) in Hin
    as [Hl (Hsid & Hlo & Hhi)].
  exists b. simpl in *. done.
Qed.

Lemma getSessionMessages_elem_of now db sid limit before page m :
  getSessionMessages now db sid limit before = Some page →
  m ∈ page →
  ∃ b, messagesStore db !! m_id m = Some b ∧ mb_sessionId b = sid ∧
       0 ≤ m_timestamp m ≤ default now before ∧ m = message_of (m_id m, b).
Proof.
  unfold getSessionMessages. intros Hpage Hin.
  destruct (_ && _); [|done]. injection Hpage as <-.
  apply elem_of_take in Hin as (i & Hin & _).
  apply list_elem_of_lookup_2, js_sort_elem_of, list_elem_of_fmap in Hin
    as ([k b] & -> & Hin).
  apply (sessionTimestamp_getAll_elem_of db sid 0 (default now before) (Some limit))
    in Hin as [Hl (Hsid & Hlo & Hhi)].
  exists b. simpl in *. done.
Qed.




(** C10. A stored message of a session dated after the clock reading of
    the query is in no session that [getSessionWithMessages] returns and
    in no page that [getSessionMessages] returns when no [before] is
    given. *)
Theorem future_messages_excluded now db sid k b :
  messagesStore db !! k = Some b →
  mb_sessionId b = sid →
  now < mb_timestamp b →
  (∀ loaded, getSessionWithMessages now db sid = Some loaded →
             message_of (k, b) ∉ s_messages loaded) ∧
  (∀ limit page, getSessionMessages now db sid limit None = Some page →
                 message_of (k, b) ∉ page).
Proof.
  intros Hk Hsid Hlate. split.
  - intros loaded Hload Hin.
    destruct (getSessionWithMessages_elem_of _ _ _ _ _ Hload Hin)
      as (b' & _ & _ & Hts & _). simpl in Hts. lia.
  - intros limit page Hpage Hin.
    destruct (getSessionMessages_elem_of _ _ _ _ _ _ _ Hpage Hin)
      as (b' & _ & _ & Hts & _). simpl in Hts. lia.
Qed.

Lemma future_messages_excluded_witness :
  (∀ loaded,
     getSessionWithMessages Scenario.clock (saveSession Scenario.S1 emptyDB) "S1"
       = Some loaded → Scenario.hello ∉ s_messages loaded) ∧
  (∀ limit page,
     getSessionMessages Scenario.clock (saveSession Scenario.S1 emptyDB) "S1" limit None
       = Some page → Scenario.hello ∉ page).
Proof.
  apply (future_messages_excluded Scenario.clock (saveSession Scenario.S1 emptyDB)
           "S1" "m2" (message_body "S1" Scenario.hello)).
  - by vm_compute.
  - reflexivity.
  - by vm_compute.
Defined.

End roundtrip_theorems.

(** ** Pages of messages *)

Section pages.
Import StorageManager.

Lemma scan_messages_NoDup db sid lo hi count :
  NoDup (message_of <$> sessionTimestamp_getAll db sid lo hi count).
Proof.
  apply NoDup_fmap_2_strong; [|apply sessionTimestamp_getAll_NoDup].
  intros kb1 kb2 H1 H2.
  apply sessionTimestamp_getAll_elem_of in H1 as [H1 _].
  apply sessionTimestamp_getAll_elem_of in H2 as [H2 _].
  by apply message_of_inj_on with db.
Qed.

(** C2 fails on the code. Asked for 3 of the 7 messages of [S7]
    (Scenario B), [getSessionMessages] returns the three oldest, the
    newest of them first, and not the three most recent: the limit goes
    to [getAll] on an index in ascending order, and only the records it
    returns are sorted newest first. Asked for the messages before the
    date of [t2], it returns [t2] itself as well: the upper bound of the
    range is not open. *)
Theorem getSessionMessages_scenario_B :
  getSessionMessages Scenario.later Scenario.db7 "S7" 3 None
    = Some [Scenario.t3; Scenario.t2; Scenario.t1] ∧
  [Scenario.t3; Scenario.t2; Scenario.t1] ≠ [Scenario.t7; Scenario.t6; Scenario.t5] ∧
  getSessionMessages Scenario.later Scenario.db7 "S7" 3 (Some 2000)
    = Some [Scenario.t2; Scenario.t1] ∧
  ¬ m_timestamp Scenario.t2 < 2000.
Proof.
  split; [by vm_compute|]. split; [discriminate|].
  split; [by vm_compute|]. simpl. lia.
Qed.

Lemma pageChain_succ n now db sid limit before :
  Scenario.pageChain (S n) now db sid limit before =
  match getSessionMessages now db sid limit before with
  | Some page =>
      page :: match last page with
              | Some oldest =>
                  Scenario.pageChain n now db sid limit (Some (m_timestamp oldest))
              | None => []
              end
  | None => []
  end.
Proof. reflexivity. Qed.

Lemma pageChain_stuck n :
  Scenario.pageChain n Scenario.later Scenario.db7 "S7" 3 (Some 1000)
  = replicate n [Scenario.t1].
Proof.
  induction n as [|n IH]; [done|].
  rewrite pageChain_succ.
  replace (getSessionMessages Scenario.later Scenario.db7 "S7" 3 (Some 1000))
    with (Some [Scenario.t1]) by by vm_compute.
  cbn [last m_timestamp Scenario.t1 Scenario.message].
  by rewrite IH.
Qed.

(** C3 fails on the code. On [S7] with pages of 3, the first page is the
    three oldest messages, and every later page of the chain is the oldest
    message alone: the chain never reaches the four newest messages and
    returns the oldest one again and again. *)
Theorem pagination_stalls n :
  (Scenario.pageChain (S n) Scenario.later Scenario.db7 "S7" 3 None
     = [Scenario.t3; Scenario.t2; Scenario.t1] :: replicate n [Scenario.t1]) ∧
  (Scenario.t7 ∉ mjoin (Scenario.pageChain (S n) Scenario.later Scenario.db7 "S7" 3 None)) ∧
  ¬ NoDup (mjoin (Scenario.pageChain (S (S n)) Scenario.later Scenario.db7 "S7" 3 None)).
Proof.
  assert (∀ n, Scenario.pageChain (S n) Scenario.later Scenario.db7 "S7" 3 None
    = [Scenario.t3; Scenario.t2; Scenario.t1] :: replicate n [Scenario.t1]) as Hchain.
  { intros n'. rewrite pageChain_succ.
    replace (getSessionMessages Scenario.later Scenario.db7 "S7" 3 None)
      with (Some [Scenario.t3; Scenario.t2; Scenario.t1]) by by vm_compute.
    cbn [last m_timestamp Scenario.t1 Scenario.message].
    by rewrite pageChain_stuck. }
  split; [apply Hchain|]. split.
  - rewrite Hchain. intros Hin. apply list_elem_of_join in Hin as (page & Hin & Hpage).
    apply elem_of_cons in Hpage as [->|Hpage].
    + repeat (apply elem_of_cons in Hin as [Hin|Hin]; [discriminate Hin|]).
      by apply elem_of_nil in Hin.
    + apply elem_of_replicate in Hpage as [-> _].
      apply elem_of_cons in Hin as [Hin|Hin]; [discriminate Hin|].
      by apply elem_of_nil in Hin.
  - rewrite Hchain. cbn. intros Hnd.
    do 2 apply NoDup_cons in Hnd as [_ Hnd].
    apply NoDup_cons in Hnd as [Hnot _]. apply Hnot. by left.
Qed.

End pages.

(** ** Summaries *)

Section summaries.
Import StorageManager SaveFacts.

Lemma slice_prefix_empty n s : slice_prefix (S n) s = ""%string ↔ s = ""%string.
Proof. unfold slice_prefix. destruct s; simpl; split; congruence. Qed.

Lemma getAllSessions_elem_of db cs :
  cs ∈ getAllSessions db ↔ sessionsStore db !! cs_id cs = Some (session_body cs).
Proof.
  unfold getAllSessions, updatedAt_getAll.
  rewrite js_sort_elem_of, list_elem_of_fmap. split.
  - intros ([k b] & -> & Hin). rewrite merge_sort_Permutation in Hin.
    apply elem_of_map_to_list in Hin. simpl. rewrite Hin. by destruct b.
  - intros Hl. exists (cs_id cs, session_body cs). split.
    + by rewrite session_record_body.
    + rewrite merge_sort_Permutation. by apply elem_of_map_to_list.
Qed.

Lemma getAllSessions_NoDup db : NoDup (cs_id <$> getAllSessions db).
Proof.
  unfold getAllSessions, updatedAt_getAll.
  rewrite js_sort_Permutation, <-list_fmap_compose.
  rewrite (list_fmap_ext _ fst (merge_sort _ _)) by done.
  rewrite merge_sort_Permutation. apply NoDup_fst_map_to_list.
Qed.

(** C4 (as amended). After [saveSession(s)], [getAllSessions] lists
    exactly one summary with the id of [s]; its [messageCount] is the
    number of messages of [s]; its preview, read as a string ([''] when
    absent), is the first 100 code units of the content of the last
    message of [s] when [s] has messages; and the preview is empty exactly
    when [s] has no messages or the content of its last message is
    empty. *)
Theorem saveSession_summary db s :
  ∃ cs,
    cs ∈ getAllSessions (saveSession s db) ∧
    cs_id cs = s_id s ∧
    (∀ cs', cs' ∈ getAllSessions (saveSession s db) → cs_id cs' = s_id s → cs' = cs) ∧
    cs_messageCount cs = Some (Z.of_nat (length (s_messages s))) ∧
    (∀ m, last (s_messages s) = Some m →
          or_default (cs_preview cs) "" = slice_prefix 100 (m_content m)) ∧
    (or_default (cs_preview cs) "" = ""%string ↔
     s_messages s = [] ∨ ∃ m, last (s_messages s) = Some m ∧ m_content m = ""%string).
Proof.
  exists (compress s).
  assert (∀ o : option string, or_default o "" = default ""%string o) as Hor.
  { intros [c|]; [|done]. unfold or_default, truthy.
    destruct (String.eqb_spec c ""); by subst. }
  split; [|split; [done|split; [|split; [done|split]]]].
  - apply getAllSessions_elem_of.
    rewrite sessionsStore_saveSession. apply lookup_insert_eq.
  - intros cs' Hin Hid. apply getAllSessions_elem_of in Hin.
    rewrite sessionsStore_saveSession, Hid, lookup_insert_eq in Hin.
    apply (inj Some) in Hin.
    transitivity (session_record (cs_id cs', session_body cs'));
      [symmetry; apply session_record_body|].
    rewrite Hid, <-Hin. apply (session_record_body (compress s)).
  - intros m Hm. rewrite Hor. simpl. unfold last_message. by rewrite Hm.
  - rewrite Hor. simpl. unfold last_message.
    destruct (last (s_messages s)) as [m|] eqn:Hlast; simpl.
    + rewrite slice_prefix_empty. split.
      * intros Hm. right. by exists m.
      * intros [Hnil|(m' & [= <-] & Hm)]; [|done].
        apply last_None in Hnil. congruence.
    + split; [|done]. intros _. left. by apply last_None.
Qed.

(** Scenario A of the specification: [S1] saved and listed has two
    messages and the preview ["hello!"]. *)
Example scenario_A :
  (λ cs, (cs_id cs, cs_messageCount cs, cs_preview cs))
    <$> getAllSessions (saveSession Scenario.S1 emptyDB)
  = [("S1"%string, Some 2, Some "hello!"%string)].
Proof. by vm_compute. Qed.

(** C4 as stated fails: saved while its answer is still empty, the session
    has two messages and an empty preview. *)
Lemma summary_counterexample :
  (cs_preview <$> getAllSessions (saveSession Scenario.S1_streaming emptyDB)
     = [Some ""%string]) ∧
  s_messages Scenario.S1_streaming ≠ [].
Proof. split; [by vm_compute|discriminate]. Qed.

End summaries.

(** ** Repair on read *)

Section repair.
Import UseAdvancedStorage StorageManager SaveFacts.



Lemma getSessionWithMessages_is_Some now d sid :
  0 ≤ now → is_Some (sessionsStore d !! sid) →
  ∃ full, getSessionWithMessages now d sid = Some full ∧ s_id full = sid.
Proof.
  intros Hnow [body Hbody]. unfold getSessionWithMessages, bound_ok.
  rewrite Hbody, (proj2 (Z.leb_le _ _) Hnow). eauto.
Qed.












End repair.


(** The legacy record of Scenario A is repaired to two messages and the
    preview ["hello!"], in the returned summary and in the database. *)
Example repair_on_read_scenario :
  ∃ w',
    UseAdvancedStorage.loadSessionsFromIndexedDB 5000 NoFault Scenario.noFaults
      Scenario.legacy = Resolved w' ∧
    (λ s, (s_messageCount s, s_lastMessagePreview s))
      <$> UseAdvancedStorage.sessions (UseAdvancedStorage.state w')
      = [(Some 2, Some "hello!"%string)] ∧
    (λ b, (sb_messageCount b, sb_preview b))
      <$> sessionsStore (UseAdvancedStorage.db w') !! "S1"
      = Some (Some 2, Some "hello!"%string).
Proof. eexists. split; [reflexivity|]. split; by vm_compute. Qed.


(** ** Migration *)

Section migration.
Import UseAdvancedStorage StorageManager SaveFacts.

Section replay.
Context {V : Type}.
Implicit Types (m : gmap string V) (ops : list (string * V)).

Lemma upserts_union ops : ∀ m, upserts m ops = upserts ∅ ops ∪ m.
Proof.
  induction ops as [|[k v] ops IH]; intros m; unfold upserts in *; simpl.
  - by rewrite (left_id_L ∅ (∪)).
  - rewrite (IH (<[k:=v]> m)), (IH (<[k:=v]> ∅)).
    rewrite <-(assoc_L (∪)). f_equal.
    by rewrite <-insert_union_l, (left_id_L ∅ (∪)).
Qed.

(** Upserts are keyed: a run applied again changes nothing. *)
Lemma upserts_replay ops m : upserts (upserts m ops) ops = upserts m ops.
Proof.
  rewrite (upserts_union ops (upserts m ops)), (upserts_union ops m).
  by rewrite (assoc_L (∪)), (idemp_L (∪)).
Qed.

Lemma upserts_app m ops1 ops2 :
  upserts m (ops1 ++ ops2) = upserts (upserts m ops1) ops2.
Proof. apply foldl_app. Qed.

Lemma upserts_resume ops1 ops2 m :
  upserts (upserts m ops1) (ops1 ++ ops2) = upserts m (ops1 ++ ops2).
Proof. by rewrite !upserts_app, upserts_replay. Qed.
End replay.

Lemma saveSessions_stores l : ∀ d,
  sessionsStore (foldl (λ db session, saveSession session db) d l)
    = upserts (sessionsStore d) (session_writes l) ∧
  messagesStore (foldl (λ db session, saveSession session db) d l)
    = upserts (messagesStore d) (message_writes l).
Proof.
  induction l as [|s l IH]; intros d; [done|].
  cbn [foldl]. destruct (IH (saveSession s d)) as [-> ->].
  rewrite sessionsStore_saveSession, messagesStore_saveSession. split; [done|].
  unfold message_writes. rewrite bind_cons, upserts_app. f_equal.
  unfold upserts. by rewrite foldl_fmap.
Qed.

Lemma ChatDB_eq (d1 d2 : ChatDB) :
  sessionsStore d1 = sessionsStore d2 → messagesStore d1 = messagesStore d2 → d1 = d2.
Proof. destruct d1, d2. simpl. by intros -> ->. Qed.

(** A complete run of [migrateFromLocalStorage] after any run of it, whole
    or cut short, gives the database of one complete run. *)
Lemma migrateFromLocalStorage_again failAt sv d :
  migrateFromLocalStorage None sv (migrateFromLocalStorage failAt sv d)
  = migrateFromLocalStorage None sv d.
Proof.
  destruct sv as [[| |l]|]; try done. unfold migrateFromLocalStorage.
  set (saved := match failAt with None => l | Some k => take k l end).
  assert (∃ rest, l = saved ++ rest) as [rest Hl].
  { unfold saved. destruct failAt as [k|]; [exists (drop k l)|exists []].
    - by rewrite take_drop.
    - by rewrite app_nil_r. }
  clearbody saved. subst l. apply ChatDB_eq.
  - rewrite !(proj1 (saveSessions_stores _ _)).
    unfold session_writes. rewrite fmap_app. apply upserts_resume.
  - rewrite !(proj2 (saveSessions_stores _ _)).
    unfold message_writes. rewrite bind_app. apply upserts_resume.
Qed.

Lemma loadSessionsFromIndexedDB_slot now lf faults w w' :
  loadSessionsFromIndexedDB now lf faults w = Resolved w' →
  slot w' = slot w ∧ setItemCalls w' = setItemCalls w.
Proof.
  unfold loadSessionsFromIndexedDB. destruct (try_getAllSessions lf (db w)); [|done].
  destruct (loadSummaries _ _ _ _). by intros [= <-].
Qed.

Lemma refreshSessions_slot now lf faults w :
  slot (refreshSessions now lf faults w) = slot w ∧
  setItemCalls (refreshSessions now lf faults w) = setItemCalls w.
Proof.
  unfold refreshSessions, loadSessionsFromLocalStorage.
  destruct (storageType (state w)).
  - destruct (loadSessionsFromIndexedDB now lf faults w) eqn:Hload; [|done].
    by eapply loadSessionsFromIndexedDB_slot.
  - destruct (slot w) as [[]|] eqn:E; simpl; by rewrite ?E.
  - destruct (slot w) as [[]|] eqn:E; simpl; by rewrite ?E.
Qed.

(** C7 (as amended). A complete run of [migrateFromLocalStorage] after an
    earlier run, complete or interrupted, leaves the primary database that
    one complete run leaves. The migration step of [initializeStorage]
    migrates what the slot holds and removes the key: after it the slot
    holds nothing the code takes for data (it is absent, unless it held
    the empty string), and a second run of the step changes nothing. The
    hook's [migrateData], which calls [migrateFromLocalStorage] alone,
    leaves the slot as it found it. *)
Theorem migration_idempotent failAt sv d w :
  migrateFromLocalStorage None sv (migrateFromLocalStorage failAt sv d)
    = migrateFromLocalStorage None sv d ∧
  db (migrateIfNeeded None w) = migrateFromLocalStorage None (slot w) (db w) ∧
  slot_truthy (slot (migrateIfNeeded failAt w)) = false ∧
  (slot w ≠ Some EmptyText → slot (migrateIfNeeded failAt w) = None) ∧
  migrateIfNeeded None (migrateIfNeeded failAt w) = migrateIfNeeded failAt w ∧
  (∀ now listFault faults,
     slot (migrateData failAt now listFault faults w) = slot w).
Proof.
  split; [apply migrateFromLocalStorage_again|].
  split; [|split; [|split; [|split]]].
  - unfold migrateIfNeeded.
    destruct (slot w) as [[]|] eqn:E; simpl; by rewrite ?E.
  - unfold migrateIfNeeded.
    destruct (slot w) as [[]|] eqn:E; simpl; by rewrite ?E.
  - unfold migrateIfNeeded.
    destruct (slot w) as [[]|] eqn:E; simpl; by rewrite ?E.
  - unfold migrateIfNeeded.
    destruct (slot w) as [[]|] eqn:E; simpl; by rewrite ?E.
  - intros now lf faults. unfold migrateData.
    destruct (storageType (state w)); [|done..].
    by rewrite (proj1 (refreshSessions_slot _ _ _ _)).
Qed.

(** C7 as stated fails: [migrateFromLocalStorage], here through
    [migrateData], migrates [S1] and leaves it in the slot. *)
Lemma migration_counterexample :
  slot (migrateData None 5000 NoFault Scenario.noFaults Scenario.leftover)
    = Some (SessionsJson [Scenario.S1]) ∧
  sessionsStore
    (db (migrateData None 5000 NoFault Scenario.noFaults Scenario.leftover)) !! "S1"
    = Some (session_body (compress Scenario.S1)).
Proof. split; by vm_compute. Qed.

End migration.

(** ** Failures of the primary store *)

Section degradation.
Import UseAdvancedStorage.

Variable setItemResult : list ChatSession -> SetItemResult.

Lemma saveToLocalStorage_facts l w :
  db (saveToLocalStorage setItemResult l w) = db w ∧
  setItemCalls (saveToLocalStorage setItemResult l w) = setItemCalls w ++ [l] ∧
  sessions (state (saveToLocalStorage setItemResult l w)) = sessions (state w) ∧
  storageType (state (saveToLocalStorage setItemResult l w)) = storageType (state w) ∧
  (setItemResult l = Written →
     slot (saveToLocalStorage setItemResult l w) = Some (SessionsJson l) ∧
     error (state (saveToLocalStorage setItemResult l w)) = error (state w)) ∧
  (setItemResult l ≠ Written →
     slot (saveToLocalStorage setItemResult l w) = slot w ∧
     error (state (saveToLocalStorage setItemResult l w)) = Some quotaMessage).
Proof.
  unfold saveToLocalStorage, setItem. by destruct (setItemResult l).
Qed.

(** C8 (as amended). With [storageType] at ['indexeddb'] and a primary call
    that fails: [saveSession] writes the session, followed by the other
    sessions of the state, to the fallback slot with one [setItem], and
    leaves database and state sessions as they were; [loadSession] answers
    from the sessions of the state when the engine cannot be reached, and
    [null] when the failure is inside the transaction; [deleteSession]
    touches neither database nor slot and takes the session out of the
    state. In each case [storageType] stays ['indexeddb'], so that a later
    [saveSession] without fault is written to the primary database. *)
Theorem primary_failure_routing f w :
  storageType (state w) = indexeddb →
  f ≠ NoFault →
  (∀ session,
     let w' := saveSession setItemResult f session w in
     w' = saveToLocalStorage setItemResult
            (session :: without (s_id session) (sessions (state w))) w ∧
     setItemCalls w' =
       setItemCalls w ++ [session :: without (s_id session) (sessions (state w))] ∧
     db w' = db w ∧ sessions (state w') = sessions (state w) ∧
     storageType (state w') = indexeddb ∧
     ∀ next, db (saveSession setItemResult NoFault next w')
             = StorageManager.saveSession next (db w)) ∧
  (∀ now sessionId,
     loadSession f now sessionId w =
       match f with
       | EngineFault => find_session sessionId (sessions (state w))
       | _ => None
       end) ∧
  (∀ sessionId,
     let w' := deleteSession setItemResult f sessionId w in
     db w' = db w ∧ slot w' = slot w ∧ setItemCalls w' = setItemCalls w ∧
     sessions (state w') = without sessionId (sessions (state w)) ∧
     storageType (state w') = indexeddb).
Proof.
  intros Htype Hf. split; [|split].
  - intros session w'.
    assert (w' = saveToLocalStorage setItemResult
                   (session :: without (s_id session) (sessions (state w))) w) as Hw'.
    { unfold w', saveSession. rewrite Htype. by destruct f. }
    destruct (saveToLocalStorage_facts
                (session :: without (s_id session) (sessions (state w))) w)
      as (Hdb & Hcalls & Hsess & Htype' & _).
    rewrite <-Hw' in *. repeat split; try done; [congruence|].
    intros next. unfold saveSession at 1. rewrite Htype', Htype. simpl.
    by rewrite Hdb.
  - intros now sessionId. unfold loadSession. rewrite Htype. by destruct f.
  - intros sessionId w'. unfold w', deleteSession. rewrite Htype. by destruct f.
Qed.

End degradation.

Lemma primary_failure_routing_witness :
  let w' := UseAdvancedStorage.deleteSession Scenario.roomy EngineFault "S1"
              Scenario.leftover in
  UseAdvancedStorage.db w' = UseAdvancedStorage.db Scenario.leftover ∧
  UseAdvancedStorage.slot w' = UseAdvancedStorage.slot Scenario.leftover ∧
  UseAdvancedStorage.setItemCalls w' = UseAdvancedStorage.setItemCalls Scenario.leftover ∧
  UseAdvancedStorage.sessions (UseAdvancedStorage.state w')
    = UseAdvancedStorage.without "S1"
        (UseAdvancedStorage.sessions (UseAdvancedStorage.state Scenario.leftover)) ∧
  UseAdvancedStorage.storageType (UseAdvancedStorage.state w')
    = UseAdvancedStorage.indexeddb.
Proof.
  apply (primary_failure_routing Scenario.roomy EngineFault Scenario.leftover).
  - reflexivity.
  - discriminate.
Defined.

(** C8 as stated fails: a [deleteSession] whose primary call fails makes no
    call on the fallback slot, which still holds the session; and a
    [loadSession] whose primary call fails answers from the state, not
    from the slot. *)
Lemma degradation_counterexample :
  UseAdvancedStorage.setItemCalls
    (UseAdvancedStorage.deleteSession Scenario.roomy EngineFault "S1" Scenario.leftover)
    = [] ∧
  UseAdvancedStorage.slot
    (UseAdvancedStorage.deleteSession Scenario.roomy EngineFault "S1" Scenario.leftover)
    = Some (SessionsJson [Scenario.S1]) ∧
  UseAdvancedStorage.loadSession EngineFault 5000 "S1" Scenario.leftover
    = Some Scenario.S1_shorter ∧
  Scenario.S1_shorter ≠ Scenario.S1.
Proof. repeat split; try reflexivity. discriminate. Qed.

(** ** Quota failures of the fallback slot *)

Section quota.
Import UseAdvancedStorage ChatPage.

Variable setItemResult : list ChatSession -> SetItemResult.

#[local] Instance newer_first_trans :
  Transitive (λ a b : ChatSession, s_updatedAt b ≤ s_updatedAt a).
Proof. intros x y z. lia. Qed.




End quota.


(** Scenario C: of the eight sessions the two updated longest ago, [c2]
    and [c3], are dropped, and the slot holds the other six. *)
Example quota_truncation_scenario :
  UseAdvancedStorage.slot
    (ChatPage.storage
       (ChatPage.saveSessionsEffect Scenario.sixFit 5000 NoFault Scenario.noFaults
          (ChatPage.render Scenario.page8)).1)
  = Some (SessionsJson [Scenario.c1; Scenario.c8; Scenario.c7;
                        Scenario.c6; Scenario.c5; Scenario.c4]).
Proof. reflexivity. Qed.


(** ** The model-list cache *)

Section models_cache.
Import ModelsApi.

Variable toLowerCase : string -> string.
Variable localeCompare : string -> string -> Z.

Lemma cacheValid_spec now key c :
  cacheValid now key c = true ↔ cacheKey c = key ∧ now - timestamp c < CACHE_DURATION.
Proof.
  unfold cacheValid. rewrite andb_true_iff, Z.ltb_lt.
  by destruct (String.eqb_spec (cacheKey c) key); split; intros []; try done.
Qed.

Lemma snoc_ne {A} (l : list A) x : l ++ [x] ≠ l.
Proof.
  intros H. apply (f_equal length) in H. rewrite length_app in H. simpl in H. lia.
Qed.

(** Without an API key the call throws before it looks at the cache. *)
Lemma fetchAvailableModels_no_key now response writes baseUrl a :
  fetchAvailableModels toLowerCase localeCompare now response writes "" baseUrl a
  = (a, Throws).
Proof. reflexivity. Qed.

(** C9. The cache is one value [{data, timestamp, cacheKey}] and the cache
    duration is 24 hours in milliseconds. For a non-empty [apiKey],
    [fetchAvailableModels] returns the data of the cache and sends no
    request exactly when the cache it consults has the key of the call and
    an age below the cache duration; the cache then stays as it is.
    Otherwise it sends one request to [baseUrl/models]; an answer that is
    ok becomes, filtered and ordered, both the result and the data of the
    new cache, stamped with the clock reading of the call and the key of
    the call; any other answer is thrown and the cache stays as it is. *)
Theorem models_cache_ttl now response writes apiKey baseUrl a :
  apiKey ≠ ""%string →
  let r := fetchAvailableModels toLowerCase localeCompare now response writes
                                apiKey baseUrl a in
  CACHE_DURATION = 86400000 ∧
  (fresh_entry now apiKey baseUrl a ↔
   requests r.1 = requests a ∧
   ∃ c, consulted a = Some c ∧ r.2 = Returns (data c)) ∧
  (fresh_entry now apiKey baseUrl a → modelsCache r.1 = consulted a) ∧
  (¬ fresh_entry now apiKey baseUrl a →
   requests r.1 = requests a ++ [(baseUrl ++ "/models")%string] ∧
   match response with
   | Ok body =>
       r.2 = Returns (chatModels toLowerCase localeCompare body) ∧
       modelsCache r.1 =
         Some {| data := chatModels toLowerCase localeCompare body;
                 timestamp := now;
                 cacheKey := cacheKeyOf apiKey baseUrl |}
   | _ => r.2 = Throws ∧ modelsCache r.1 = consulted a
   end).
Proof.
  intros Hkey r. split; [done|].
  assert (String.eqb apiKey "" = false) as Hguard by by apply String.eqb_neq.
  unfold fresh_entry.
  assert (∀ a1, modelsCache a1 = consulted a → requests a1 = requests a →
    let miss := fetchAndCache toLowerCase localeCompare now response writes
                              (cacheKeyOf apiKey baseUrl) baseUrl a1 in
    requests miss.1 = requests a ++ [(baseUrl ++ "/models")%string] ∧
    match response with
    | Ok body =>
        miss.2 = Returns (chatModels toLowerCase localeCompare body) ∧
        modelsCache miss.1 =
          Some {| data := chatModels toLowerCase localeCompare body;
                  timestamp := now;
                  cacheKey := cacheKeyOf apiKey baseUrl |}
    | _ => miss.2 = Throws ∧ modelsCache miss.1 = consulted a
    end) as Hmiss.
  { intros a1 Hc Hr. unfold fetchAndCache, saveModelsCache.
    destruct response, writes; simpl; rewrite ?Hr; done. }
  set (a1 := {| modelsCache := consulted a; cacheSlot := cacheSlot a;
                requests := requests a |}).
  assert (r = match consulted a with
              | Some c =>
                  if cacheValid now (cacheKeyOf apiKey baseUrl) c
                  then (a1, Returns (data c))
                  else fetchAndCache toLowerCase localeCompare now response writes
                                     (cacheKeyOf apiKey baseUrl) baseUrl a1
              | None => fetchAndCache toLowerCase localeCompare now response writes
                                      (cacheKeyOf apiKey baseUrl) baseUrl a1
              end) as ->.
  { unfold r, fetchAvailableModels. by rewrite Hguard. }
  destruct (Hmiss a1) as [Hreq Hres]; [done..|].
  destruct (consulted a) as [c|] eqn:Hc.
  - destruct (cacheValid now (cacheKeyOf apiKey baseUrl) c) eqn:Hvalid.
    + apply cacheValid_spec in Hvalid as [Hk Hage]. simpl.
      split; [|split].
      * split; [eauto|]. intros _. exists c. done.
      * done.
      * intros Hnot. destruct Hnot. exists c. done.
    + assert (¬ ∃ c0, Some c = Some c0 ∧ cacheKey c0 = cacheKeyOf apiKey baseUrl ∧
                      now - timestamp c0 < CACHE_DURATION) as Hnot.
      { intros (c0 & [= <-] & Hk & Hage).
        assert (cacheValid now (cacheKeyOf apiKey baseUrl) c = true)
          by by apply cacheValid_spec.
        congruence. }
      split; [|split; [done|done]].
      split; [done|]. intros [Hsame _]. rewrite Hreq in Hsame.
      by apply snoc_ne in Hsame.
  - split; [|split; [|done]].
    + split; [by intros (c0 & [=] & _)|]. intros [Hsame _]. rewrite Hreq in Hsame.
      by apply snoc_ne in Hsame.
    + by intros (c0 & [=] & _).
Qed.

End models_cache.

Lemma models_cache_ttl_witness :
  let r := ModelsApi.fetchAvailableModels id (λ _ _, 0) Scenario.later
             ModelsApi.NetworkError true "sk-0123456789" "https://api"
             Scenario.hourOld in
  fresh_entry Scenario.later "sk-0123456789" "https://api" Scenario.hourOld ↔
  ModelsApi.requests r.1 = ModelsApi.requests Scenario.hourOld ∧
  ∃ c, consulted Scenario.hourOld = Some c ∧ r.2 = ModelsApi.Returns (ModelsApi.data c).
Proof.
  pose proof (models_cache_ttl id (λ _ _, 0) Scenario.later ModelsApi.NetworkError
                true "sk-0123456789" "https://api" Scenario.hourOld) as H.
  cbv zeta in *. apply H. discriminate.
Defined.

(** * Further properties of the stores *)

(** ** The order of an index *)

Lemma string_leb_trans s1 : ∀ s2 s3,
  String.leb s1 s2 = true → String.leb s2 s3 = true → String.leb s1 s3 = true.
Proof.
  unfold String.leb.
  induction s1 as [|c1 s1 IH]; intros [|c2 s2] [|c3 s3]; simpl; try done.
  unfold Ascii.compare.
  destruct (N.compare_spec (Ascii.N_of_ascii c1) (Ascii.N_of_ascii c2)) as [E12|L12|G12];
  destruct (N.compare_spec (Ascii.N_of_ascii c2) (Ascii.N_of_ascii c3)) as [E23|L23|G23];
  try done.
  - rewrite E12, E23, N.compare_refl. apply IH.
  - intros _ _. rewrite E12. by rewrite (proj2 (N.compare_lt_iff _ _) L23).
  - intros _ _. rewrite <-E23. by rewrite (proj2 (N.compare_lt_iff _ _) L12).
  - intros _ _. by rewrite (proj2 (N.compare_lt_iff _ _) (N.lt_trans _ _ _ L12 L23)).
Qed.

Lemma message_key_le_alt x y :
  message_key_le x y ↔
  mb_timestamp x.2 < mb_timestamp y.2 ∨
  (mb_timestamp x.2 = mb_timestamp y.2 ∧ String.leb x.1 y.1 = true).
Proof.
  unfold message_key_le, message_key_leb.
  rewrite orb_true_iff, andb_true_iff, Z.ltb_lt, Z.eqb_eq. tauto.
Qed.

Lemma session_key_le_alt x y :
  session_key_le x y ↔
  sb_updatedAt x.2 < sb_updatedAt y.2 ∨
  (sb_updatedAt x.2 = sb_updatedAt y.2 ∧ String.leb x.1 y.1 = true).
Proof.
  unfold session_key_le, session_key_leb.
  rewrite orb_true_iff, andb_true_iff, Z.ltb_lt, Z.eqb_eq. tauto.
Qed.

#[global] Instance message_key_le_trans : Transitive message_key_le.
Proof.
  intros x y z. rewrite !message_key_le_alt.
  intros [H1|[H1 K1]] [H2|[H2 K2]]; try (left; lia).
  right. split; [lia|]. by eapply string_leb_trans.
Qed.

#[global] Instance session_key_le_trans : Transitive session_key_le.
Proof.
  intros x y z. rewrite !session_key_le_alt.
  intros [H1|[H1 K1]] [H2|[H2 K2]]; try (left; lia).
  right. split; [lia|]. by eapply string_leb_trans.
Qed.

Lemma message_key_le_antisym x y :
  message_key_le x y → message_key_le y x → x.1 = y.1.
Proof.
  rewrite !message_key_le_alt. intros [H1|[H1 K1]] [H2|[H2 K2]]; try lia.
  by apply String.leb_antisym.
Qed.

Lemma NoDup_fst_functional {A B} (l : list (A * B)) k b1 b2 :
  NoDup l.*1 → (k, b1) ∈ l → (k, b2) ∈ l → b1 = b2.
Proof.
  induction l as [|[k' b'] l IH]; intros Hnd H1 H2; [by apply elem_of_nil in H1|].
  rewrite fmap_cons in Hnd. apply NoDup_cons in Hnd as [Hnotin Hnd]. simpl in Hnotin.
  apply elem_of_cons in H1 as [H1|H1], H2 as [H2|H2].
  - congruence.
  - injection H1 as -> ->. destruct Hnotin. apply list_elem_of_fmap. by exists (k', b2).
  - injection H2 as -> ->. destruct Hnotin. apply list_elem_of_fmap. by exists (k', b1).
  - by apply IH.
Qed.

(** Index order does not depend on how the records are enumerated. *)
Lemma merge_sort_messages_unique (l1 l2 : list (string * MessageBody)) :
  NoDup l1.*1 → l1 ≡ₚ l2 →
  merge_sort message_key_le l1 = merge_sort message_key_le l2.
Proof.
  intros Hnd Hperm. apply (Sorted_unique_strong message_key_le).
  - intros x1 x2 Hx1 Hx2 H12 H21.
    rewrite merge_sort_Permutation in Hx1.
    rewrite merge_sort_Permutation, <-Hperm in Hx2.
    pose proof (message_key_le_antisym _ _ H12 H21) as Hk.
    destruct x1 as [k1 b1], x2 as [k2 b2]. simpl in Hk. subst k2.
    f_equal. by eapply NoDup_fst_functional.
  - apply Sorted_merge_sort, _.
  - apply Sorted_merge_sort, _.
  - by rewrite !merge_sort_Permutation.
Qed.

(** A range scan sees only the records of its session. *)
Lemma sessionTimestamp_getAll_ext d1 d2 sid lo hi count :
  (∀ k b, mb_sessionId b = sid →
          (messagesStore d1 !! k = Some b ↔ messagesStore d2 !! k = Some b)) →
  sessionTimestamp_getAll d1 sid lo hi count = sessionTimestamp_getAll d2 sid lo hi count.
Proof.
  intros Hsame. unfold sessionTimestamp_getAll. f_equal.
  apply merge_sort_messages_unique.
  - eapply sublist_NoDup; [apply (NoDup_fst_map_to_list (messagesStore d1))|].
    apply fmap_sublist, sublist_filter.
  - apply NoDup_Permutation; try apply NoDup_filter, NoDup_map_to_list.
    intros [k b]. rewrite !list_elem_of_filter, !elem_of_map_to_list.
    unfold in_range. simpl. split; intros [(Hs & Hr) Hl]; (split; [done|]);
      by apply (Hsame k b Hs).
Qed.

Section scans.
Import StorageManager.

Lemma getSessionWithMessages_ext now d1 d2 sid :
  sessionsStore d1 !! sid = sessionsStore d2 !! sid →
  (∀ k b, mb_sessionId b = sid →
          (messagesStore d1 !! k = Some b ↔ messagesStore d2 !! k = Some b)) →
  getSessionWithMessages now d1 sid = getSessionWithMessages now d2 sid.
Proof.
  intros Hs Hm. unfold getSessionWithMessages.
  by rewrite Hs, (sessionTimestamp_getAll_ext d1 d2 sid 0 now None Hm).
Qed.

Lemma getSessionMessages_ext now d1 d2 sid limit before :
  (∀ k b, mb_sessionId b = sid →
          (messagesStore d1 !! k = Some b ↔ messagesStore d2 !! k = Some b)) →
  getSessionMessages now d1 sid limit before = getSessionMessages now d2 sid limit before.
Proof.
  intros Hm. unfold getSessionMessages.
  by rewrite (sessionTimestamp_getAll_ext d1 d2 sid 0 _ (Some limit) Hm).
Qed.

End scans.

(** ** Listing, deleting and saving *)

Section store_operations.
Import StorageManager SaveFacts.

(** [getAllSessions()] lists every stored session once, the most recently
    updated first. *)
Theorem getAllSessions_newest_first db :
  Sorted (λ a b, cs_updatedAt b ≤ cs_updatedAt a) (getAllSessions db) ∧
  NoDup (cs_id <$> getAllSessions db) ∧
  (∀ cs, cs ∈ getAllSessions db ↔ sessionsStore db !! cs_id cs = Some (session_body cs)) ∧
  length (getAllSessions db) = size (sessionsStore db).
Proof.
  split; [|split; [apply getAllSessions_NoDup|split; [apply getAllSessions_elem_of|]]].
  - eapply Sorted_weaken; [|apply js_sort_Sorted].
    + unfold ordered. intros x y. lia.
    + intros x y. lia.
  - unfold getAllSessions, updatedAt_getAll.
    by rewrite js_sort_length, length_fmap, merge_sort_Permutation, length_map_to_list.
Qed.

Lemma lookup_delete_keys {B} (l : list (string * B)) : ∀ (m : gmap string B) k,
  foldl (λ store kb, delete kb.1 store) m l !! k =
  if decide (k ∈ l.*1) then None else m !! k.
Proof.
  induction l as [|[k' b'] l IH]; intros m k.
  { destruct (decide (k ∈ ([] : list (string * B)).*1)) as [H|]; [|done].
    by apply elem_of_nil in H. }
  cbn [foldl]. rewrite IH. rewrite fmap_cons. cbn [fst].
  destruct (decide (k ∈ l.*1)) as [Hin|Hout];
    destruct (decide (k ∈ k' :: l.*1)) as [Hin'|Hout']; try done.
  - destruct Hout'. by right.
  - apply elem_of_cons in Hin' as [->|Hin']; [|done]. apply lookup_delete_eq.
  - rewrite lookup_delete_ne; [done|]. intros ->. destruct Hout'. by left.
Qed.

Lemma sessionId_getAll_elem_of db sid k b :
  (k, b) ∈ sessionId_getAll db sid ↔ messagesStore db !! k = Some b ∧ mb_sessionId b = sid.
Proof.
  unfold sessionId_getAll.
  rewrite merge_sort_Permutation, list_elem_of_filter, elem_of_map_to_list. simpl. tauto.
Qed.

(** What [deleteSession] leaves in the messages store. *)
Lemma lookup_deleteSession_messages sid db k :
  messagesStore (deleteSession sid db) !! k =
  match messagesStore db !! k with
  | Some b => if decide (mb_sessionId b = sid) then None else Some b
  | None => None
  end.
Proof.
  unfold deleteSession. simpl. rewrite lookup_delete_keys.
  destruct (messagesStore db !! k) as [b|] eqn:Hk.
  - destruct (decide (mb_sessionId b = sid)) as [Hs|Hs].
    + rewrite decide_True; [done|]. apply list_elem_of_fmap. exists (k, b).
      split; [done|]. by apply sessionId_getAll_elem_of.
    + rewrite decide_False; [done|]. intros Hin.
      apply list_elem_of_fmap in Hin as ([k' b'] & -> & Hin).
      apply sessionId_getAll_elem_of in Hin as [Hl Hs']. simpl in *. congruence.
  - by destruct (decide _).
Qed.

(** Cascade: after [deleteSession(id)] the session is not found, no page of
    it holds a message, no stored message carries its id and no summary of
    it is listed. *)
Theorem deleteSession_cascade now sid db :
  getSessionWithMessages now (deleteSession sid db) sid = None ∧
  (∀ limit before page,
     getSessionMessages now (deleteSession sid db) sid limit before = Some page →
     page = []) ∧
  (∀ k b, messagesStore (deleteSession sid db) !! k = Some b → mb_sessionId b ≠ sid) ∧
  (∀ cs, cs ∈ getAllSessions (deleteSession sid db) → cs_id cs ≠ sid).
Proof.
  assert (∀ k b, messagesStore (deleteSession sid db) !! k = Some b →
                 mb_sessionId b ≠ sid) as Hgone.
  { intros k b. rewrite lookup_deleteSession_messages.
    destruct (messagesStore db !! k) as [b'|]; [|done].
    destruct (decide (mb_sessionId b' = sid)); [done|]. by intros [= <-]. }
  split; [|split; [|split; [done|]]].
  - unfold getSessionWithMessages, deleteSession. simpl. by rewrite lookup_delete_eq.
  - intros limit before page Hpage. destruct page as [|m page]; [done|].
    destruct (getSessionMessages_elem_of _ _ _ _ _ _ m Hpage) as (b & Hb & Hs & _);
      [by left|].
    by destruct (Hgone _ _ Hb).
  - intros cs Hcs Hid. apply getAllSessions_elem_of in Hcs.
    unfold deleteSession in Hcs. simpl in Hcs. by rewrite Hid, lookup_delete_eq in Hcs.
Qed.

(** Deleting one session leaves every other session, and every page of
    it, as it was. *)
Theorem deleteSession_other now sid sid' db :
  sid' ≠ sid →
  getSessionWithMessages now (deleteSession sid db) sid'
    = getSessionWithMessages now db sid' ∧
  ∀ limit before,
    getSessionMessages now (deleteSession sid db) sid' limit before
    = getSessionMessages now db sid' limit before.
Proof.
  intros Hne.
  assert (∀ k b, mb_sessionId b = sid' →
            (messagesStore (deleteSession sid db) !! k = Some b ↔
             messagesStore db !! k = Some b)) as Hsame.
  { intros k b Hs. rewrite lookup_deleteSession_messages.
    destruct (messagesStore db !! k) as [b'|]; [|done].
    destruct (decide (mb_sessionId b' = sid)) as [Hs'|_]; [|done].
    split; [done|]. intros [= ->]. congruence. }
  split.
  - apply getSessionWithMessages_ext; [|done].
    unfold deleteSession. simpl. by rewrite lookup_delete_ne.
  - intros limit before. by apply getSessionMessages_ext.
Qed.

Lemma deleteSession_other_witness :
  getSessionWithMessages 5000
      (deleteSession "S7" (saveSession Scenario.S1 Scenario.db7)) "S1"
    = getSessionWithMessages 5000 (saveSession Scenario.S1 Scenario.db7) "S1" ∧
  ∀ limit before,
    getSessionMessages 5000
        (deleteSession "S7" (saveSession Scenario.S1 Scenario.db7)) "S1" limit before
    = getSessionMessages 5000 (saveSession Scenario.S1 Scenario.db7) "S1" limit before.
Proof.
  apply (deleteSession_other 5000 "S7" "S1" (saveSession Scenario.S1 Scenario.db7)).
  discriminate.
Defined.

(** The record a saved message id holds afterwards: the last message of
    the saved list with that id, under the saved session. *)
Lemma lookup_put_messages_in sid l : ∀ (st : gmap string MessageBody) k,
  k ∈ m_id <$> l →
  ∃ m, m ∈ l ∧ m_id m = k ∧
       foldl (λ st m, <[m_id m := message_body sid m]> st) st l !! k
       = Some (message_body sid m).
Proof.
  induction l as [|x l IH]; intros st k Hk; [by apply elem_of_nil in Hk|].
  simpl. destruct (decide (k ∈ m_id <$> l)) as [Hin|Hout].
  - destruct (IH (<[m_id x := message_body sid x]> st) k Hin) as (m & Hm & Hid & Hl).
    exists m. split; [by right|done].
  - rewrite fmap_cons in Hk. apply elem_of_cons in Hk as [->|Hk]; [|done].
    exists x. split; [by left|]. split; [done|].
    rewrite lookup_put_messages_other by done. apply lookup_insert_eq.
Qed.

(** Saving a session leaves another session as it was, provided none of the
    saved message ids is stored under that other session. *)
Theorem saveSession_other now s sid' db :
  sid' ≠ s_id s →
  (∀ m b, m ∈ s_messages s → messagesStore db !! m_id m = Some b →
          mb_sessionId b ≠ sid') →
  getSessionWithMessages now (saveSession s db) sid'
    = getSessionWithMessages now db sid' ∧
  ∀ limit before,
    getSessionMessages now (saveSession s db) sid' limit before
    = getSessionMessages now db sid' limit before.
Proof.
  intros Hne Hdisjoint.
  assert (∀ k b, mb_sessionId b = sid' →
            (messagesStore (saveSession s db) !! k = Some b ↔
             messagesStore db !! k = Some b)) as Hsame.
  { intros k b Hs. rewrite messagesStore_saveSession.
    destruct (decide (k ∈ m_id <$> s_messages s)) as [Hin|Hout].
    - destruct (lookup_put_messages_in (s_id s) _ (messagesStore db) k Hin)
        as (m & Hm & <- & ->).
      split.
      + intros [= <-]. simpl in Hs. congruence.
      + intros Hb. by destruct (Hdisjoint m b Hm Hb).
    - by rewrite lookup_put_messages_other. }
  split.
  - apply getSessionWithMessages_ext; [|done].
    rewrite sessionsStore_saveSession. by rewrite lookup_insert_ne.
  - intros limit before. by apply getSessionMessages_ext.
Qed.

Lemma saveSession_other_witness :
  getSessionWithMessages 5000 (saveSession Scenario.S1 Scenario.db7) "S7"
    = getSessionWithMessages 5000 Scenario.db7 "S7" ∧
  ∀ limit before,
    getSessionMessages 5000 (saveSession Scenario.S1 Scenario.db7) "S7" limit before
    = getSessionMessages 5000 Scenario.db7 "S7" limit before.
Proof.
  apply (saveSession_other 5000 Scenario.S1 "S7" Scenario.db7).
  - discriminate.
  - intros m b Hm.
    repeat (apply elem_of_cons in Hm as [->|Hm]); [by vm_compute..|].
    by apply elem_of_nil in Hm.
Defined.

(** Message ids are keys of one store for all sessions: once a session is
    saved, no other session loads a message with one of its message ids. *)
Theorem saveSession_takes_over now s sid' db loaded m :
  sid' ≠ s_id s →
  getSessionWithMessages now (saveSession s db) sid' = Some loaded →
  m ∈ s_messages loaded →
  m_id m ∉ m_id <$> s_messages s.
Proof.
  intros Hne Hload Hm Hin.
  destruct (getSessionWithMessages_elem_of _ _ _ _ _ Hload Hm) as (b & Hb & Hs & _).
  rewrite messagesStore_saveSession in Hb.
  destruct (lookup_put_messages_in (s_id s) _ (messagesStore db) _ Hin)
    as (m' & _ & _ & Hl).
  rewrite Hl in Hb. injection Hb as <-. simpl in Hs. congruence.
Qed.

(** Saving the same session again changes nothing. *)
Theorem saveSession_idempotent s db :
  saveSession s (saveSession s db) = saveSession s db.
Proof.
  apply ChatDB_eq.
  - rewrite !sessionsStore_saveSession. apply insert_insert_eq.
  - rewrite !messagesStore_saveSession.
    pose proof (upserts_replay
      ((λ m, (m_id m, message_body (s_id s) m)) <$> s_messages s) (messagesStore db)) as H.
    unfold upserts in H. by rewrite !foldl_fmap in H.
Qed.

(** Deleting a session right after it was saved for the first time, with
    message ids the store did not know, gives the store back as it was. *)
Theorem deleteSession_saveSession s db :
  sessionsStore db !! s_id s = None →
  (∀ k b, messagesStore db !! k = Some b → mb_sessionId b ≠ s_id s) →
  (∀ m, m ∈ s_messages s → messagesStore db !! m_id m = None) →
  deleteSession (s_id s) (saveSession s db) = db.
Proof.
  intros Hnew Hnone Hfresh. apply ChatDB_eq.
  - unfold deleteSession. simpl. rewrite sessionsStore_saveSession.
    rewrite delete_insert_eq. by apply delete_id.
  - apply map_eq. intros k. rewrite lookup_deleteSession_messages.
    rewrite messagesStore_saveSession.
    destruct (decide (k ∈ m_id <$> s_messages s)) as [Hin|Hout].
    + destruct (lookup_put_messages_in (s_id s) _ (messagesStore db) k Hin)
        as (m & Hm & <- & ->).
      simpl. rewrite decide_True by done. symmetry. by apply Hfresh.
    + rewrite lookup_put_messages_other by done.
      destruct (messagesStore db !! k) as [b|] eqn:Hk; [|done].
      rewrite decide_False; [done|]. by eapply Hnone.
Qed.

Lemma deleteSession_saveSession_witness :
  deleteSession "S1" (saveSession Scenario.S1 Scenario.db7) = Scenario.db7.
Proof.
  apply (deleteSession_saveSession Scenario.S1 Scenario.db7).
  - by vm_compute.
  - assert (map_Forall (λ _ b, mb_sessionId b ≠ "S1"%string)
                       (messagesStore Scenario.db7)) as Hall
      by by apply (bool_decide_unpack _).
    intros k b Hk. by apply (Hall k b).
  - intros m Hm. repeat (apply elem_of_cons in Hm as [->|Hm]); [by vm_compute..|].
    by apply elem_of_nil in Hm.
Defined.

End store_operations.

Lemma saveSession_takes_over_witness :
  m_id Scenario.t2 ∉ m_id <$> s_messages Scenario.S1_reusing.
Proof.
  eapply (saveSession_takes_over Scenario.later Scenario.S1_reusing "S7"
            Scenario.db7 _ Scenario.t2).
  - discriminate.
  - by vm_compute.
  - by left.
Defined.

(** The oldest message of [S7] goes over to the session that is saved with
    its id. *)
Example saveSession_takes_over_scenario :
  (λ s, m_id <$> s_messages s)
    <$> StorageManager.getSessionWithMessages Scenario.later
          (StorageManager.saveSession Scenario.S1_reusing Scenario.db7) "S7"
  = Some ["b"; "c"; "d"; "e"; "f"; "g"]%string.
Proof. by vm_compute. Qed.

(** ** More on pages *)

Section more_pages.
Import StorageManager.

(** A page holds the oldest messages of the scanned range: a stored
    message of the range that is not in the page is not older than any
    message of the page. *)
Theorem getSessionMessages_oldest now db sid limit before page k b m :
  getSessionMessages now db sid limit before = Some page →
  (0 < limit)%nat →
  messagesStore db !! k = Some b →
  in_range sid 0 (default now before) (k, b) →
  message_of (k, b) ∉ page →
  m ∈ page →
  m_timestamp m ≤ mb_timestamp b.
Proof.
  unfold getSessionMessages. intros Hpage Hpos Hk Hrange Hout Hm.
  destruct (_ && _); [|done]. injection Hpage as <-.
  set (sorted := merge_sort message_key_le
         (filter (in_range sid 0 (default now before))
                 (map_to_list (messagesStore db)))) in *.
  destruct limit as [|n]; [lia|]. set (limit := S n) in *.
  rewrite take_ge in Hout, Hm
    by (rewrite js_sort_length, length_fmap, length_take; lia).
  rewrite js_sort_elem_of in Hout, Hm.
  apply list_elem_of_fmap in Hm as (x & -> & Hx).
  assert ((k, b) ∈ sorted) as Hin.
  { unfold sorted. rewrite merge_sort_Permutation, list_elem_of_filter.
    split; [done|]. by apply elem_of_map_to_list. }
  rewrite <-(take_drop limit sorted) in Hin.
  apply elem_of_app in Hin as [Hin|Hin].
  { destruct Hout. by apply list_elem_of_fmap_2. }
  assert (StronglySorted message_key_le sorted) as Hsorted
    by (apply StronglySorted_merge_sort; apply _).
  rewrite <-(take_drop limit sorted) in Hsorted.
  pose proof (StronglySorted_app_1_elem_of _ _ _ _ _ Hsorted Hx Hin) as Hle.
  apply message_key_le_alt in Hle. simpl in *. lia.
Qed.

Lemma getSessionMessages_oldest_witness :
  m_timestamp Scenario.t3 ≤ mb_timestamp (message_body "S7" Scenario.t7).
Proof.
  eapply (getSessionMessages_oldest Scenario.later Scenario.db7 "S7" 3 None _ "g").
  - by vm_compute.
  - lia.
  - by vm_compute.
  - by vm_compute.
  - intros H. repeat (apply elem_of_cons in H as [H|H]; [discriminate H|]).
    by apply elem_of_nil in H.
  - by left.
Defined.

End more_pages.

(** ** Statistics *)

Section statistics.
Import StorageManager SaveFacts.

Lemma foldl_min_le ds : ∀ d x, x ∈ d :: ds → foldl Z.min d ds ≤ x.
Proof.
  assert (∀ ds d, foldl Z.min d ds ≤ d ∧ Forall (λ x, foldl Z.min d ds ≤ x) ds) as H.
  { clear. induction ds as [|d' ds IH]; intros d; simpl; [by split|].
    destruct (IH (Z.min d d')) as [Hd Hds]. split; [lia|].
    constructor; [lia|done]. }
  intros d x Hx. destruct (H ds d) as [Hd Hds].
  apply elem_of_cons in Hx as [->|Hx]; [done|].
  by apply (proj1 (Forall_forall _ _) Hds).
Qed.

Lemma foldl_min_elem_of ds : ∀ d, foldl Z.min d ds ∈ d :: ds.
Proof.
  induction ds as [|d' ds IH]; intros d; simpl; [by left|].
  specialize (IH (Z.min d d')). apply elem_of_cons in IH as [->|IH].
  - destruct (Z.min_spec d d') as [[_ ->]|[_ ->]]; [by left|by right; left].
  - by do 2 right.
Qed.

Lemma foldl_max_ge ds : ∀ d x, x ∈ d :: ds → x ≤ foldl Z.max d ds.
Proof.
  assert (∀ ds d, d ≤ foldl Z.max d ds ∧ Forall (λ x, x ≤ foldl Z.max d ds) ds) as H.
  { clear. induction ds as [|d' ds IH]; intros d; simpl; [by split|].
    destruct (IH (Z.max d d')) as [Hd Hds]. split; [lia|].
    constructor; [lia|done]. }
  intros d x Hx. destruct (H ds d) as [Hd Hds].
  apply elem_of_cons in Hx as [->|Hx]; [done|].
  by apply (proj1 (Forall_forall _ _) Hds).
Qed.

Lemma foldl_max_elem_of ds : ∀ d, foldl Z.max d ds ∈ d :: ds.
Proof.
  induction ds as [|d' ds IH]; intros d; simpl; [by left|].
  specialize (IH (Z.max d d')). apply elem_of_cons in IH as [->|IH].
  - destruct (Z.max_spec d d') as [[_ ->]|[_ ->]]; [by right; left|by left].
  - by do 2 right.
Qed.

Lemma created_dates_elem_of db x :
  x ∈ cs_createdAt <$> sessions_getAll db ↔
  ∃ k b, sessionsStore db !! k = Some b ∧ sb_createdAt b = x.
Proof.
  unfold sessions_getAll. rewrite <-list_fmap_compose, list_elem_of_fmap. split.
  - intros ([k b] & -> & Hin). rewrite merge_sort_Permutation in Hin.
    apply elem_of_map_to_list in Hin. by exists k, b.
  - intros (k & b & Hl & <-). exists (k, b). split; [done|].
    rewrite merge_sort_Permutation. by apply elem_of_map_to_list.
Qed.

(** [getStorageStats()]: the size estimate is 500 times the number of
    stored messages; without sessions there is no oldest and no newest
    date; otherwise they are the earliest and the latest creation date of
    a stored session. *)
Theorem getStorageStats_dates db :
  estimatedSize (getStorageStats db) = 500 * Z.of_nat (size (messagesStore db)) ∧
  (sessionsStore db = ∅ →
   oldestSession (getStorageStats db) = None ∧
   newestSession (getStorageStats db) = None) ∧
  (sessionsStore db ≠ ∅ →
   ∃ lo hi,
     oldestSession (getStorageStats db) = Some lo ∧
     newestSession (getStorageStats db) = Some hi ∧
     (∀ k b, sessionsStore db !! k = Some b → lo ≤ sb_createdAt b ≤ hi) ∧
     (∃ k b, sessionsStore db !! k = Some b ∧ sb_createdAt b = lo) ∧
     (∃ k b, sessionsStore db !! k = Some b ∧ sb_createdAt b = hi)).
Proof.
  split; [simpl; lia|]. split.
  - intros Hempty. unfold getStorageStats, sessions_getAll. simpl.
    rewrite Hempty, map_to_list_empty. done.
  - intros Hne. unfold getStorageStats. simpl.
    destruct (cs_createdAt <$> sessions_getAll db) as [|d ds] eqn:Hdates.
    { destruct Hne. apply map_size_empty_inv.
      apply (f_equal length) in Hdates.
      unfold sessions_getAll in Hdates.
      rewrite !length_fmap, merge_sort_Permutation, length_map_to_list in Hdates.
      done. }
    exists (foldl Z.min d ds), (foldl Z.max d ds). simpl.
    split; [done|]. split; [done|]. split; [|split].
    + intros k b Hl.
      assert (sb_createdAt b ∈ d :: ds) as Hin
        by (rewrite <-Hdates; apply created_dates_elem_of; eauto).
      split; [by apply foldl_min_le|by apply foldl_max_ge].
    + apply created_dates_elem_of. rewrite Hdates. apply foldl_min_elem_of.
    + apply created_dates_elem_of. rewrite Hdates. apply foldl_max_elem_of.
Qed.

Lemma size_put_fresh sid l : ∀ (st : gmap string MessageBody),
  NoDup (m_id <$> l) →
  (∀ m, m ∈ l → st !! m_id m = None) →
  size (foldl (λ st m, <[m_id m := message_body sid m]> st) st l)
  = (size st + length l)%nat.
Proof.
  induction l as [|x l IH]; intros st Hnd Hfresh; simpl; [lia|].
  rewrite fmap_cons in Hnd. apply NoDup_cons in Hnd as [Hx Hnd].
  rewrite IH; [|done|].
  - rewrite map_size_insert_None; [lia|]. apply Hfresh. by left.
  - intros m Hm. rewrite lookup_insert_ne; [apply Hfresh; by right|].
    intros Heq. apply Hx. rewrite Heq. by apply list_elem_of_fmap_2.
Qed.

(** Saving a session the store does not know, with distinct message ids
    the store does not know, adds one session and its number of messages
    to the counts. *)
Theorem getStorageStats_saveSession s db :
  sessionsStore db !! s_id s = None →
  NoDup (m_id <$> s_messages s) →
  (∀ m, m ∈ s_messages s → messagesStore db !! m_id m = None) →
  totalSessions (getStorageStats (saveSession s db))
    = totalSessions (getStorageStats db) + 1 ∧
  totalMessages (getStorageStats (saveSession s db))
    = totalMessages (getStorageStats db) + Z.of_nat (length (s_messages s)).
Proof.
  intros Hnew Hnd Hfresh. unfold getStorageStats. simpl.
  rewrite sessionsStore_saveSession, messagesStore_saveSession.
  rewrite map_size_insert_None by done.
  rewrite size_put_fresh by done. lia.
Qed.

Lemma getStorageStats_saveSession_witness :
  totalSessions (getStorageStats (saveSession Scenario.S1 Scenario.db7))
    = totalSessions (getStorageStats Scenario.db7) + 1 ∧
  totalMessages (getStorageStats (saveSession Scenario.S1 Scenario.db7))
    = totalMessages (getStorageStats Scenario.db7)
      + Z.of_nat (length (s_messages Scenario.S1)).
Proof.
  apply (getStorageStats_saveSession Scenario.S1 Scenario.db7).
  - by vm_compute.
  - by apply (bool_decide_unpack _).
  - intros m Hm. repeat (apply elem_of_cons in Hm as [->|Hm]); [by vm_compute..|].
    by apply elem_of_nil in Hm.
Defined.

End statistics.

(** ** What a migration writes *)

Section migration_content.
Import UseAdvancedStorage StorageManager SaveFacts.

Lemma lookup_upserts_other {V} (ops : list (string * V)) : ∀ (m : gmap string V) k,
  k ∉ ops.*1 → upserts m ops !! k = m !! k.
Proof.
  unfold upserts. induction ops as [|[k' v] ops IH]; intros m k Hk; simpl; [done|].
  rewrite fmap_cons, not_elem_of_cons in Hk. destruct Hk as [Hne Hk].
  rewrite IH by done. by rewrite lookup_insert_ne.
Qed.

Lemma lookup_upserts {V} (ops : list (string * V)) : ∀ (m : gmap string V) k v,
  NoDup ops.*1 → (k, v) ∈ ops → upserts m ops !! k = Some v.
Proof.
  induction ops as [|[k' v'] ops IH]; intros m k v Hnd Hin; [by apply elem_of_nil in Hin|].
  rewrite fmap_cons in Hnd. apply NoDup_cons in Hnd as [Hk' Hnd].
  apply elem_of_cons in Hin as [[= -> ->]|Hin].
  - unfold upserts. simpl. fold (upserts (<[k':=v']> m) ops).
    rewrite lookup_upserts_other by done. apply lookup_insert_eq.
  - unfold upserts. simpl. by apply IH.
Qed.

(** The messages a range scan finds for a session whose messages the store
    holds under its id, and no others. *)
Lemma stored_messages_scan now db s :
  NoDup (m_id <$> s_messages s) →
  (∀ m, m ∈ s_messages s → 0 ≤ m_timestamp m ≤ now) →
  (∀ m, m ∈ s_messages s →
        messagesStore db !! m_id m = Some (message_body (s_id s) m)) →
  (∀ k b, messagesStore db !! k = Some b → mb_sessionId b = s_id s →
          k ∈ m_id <$> s_messages s) →
  message_of <$> sessionTimestamp_getAll db (s_id s) 0 now None ≡ₚ s_messages s.
Proof.
  intros Hnd Hts Hthere Honly.
  transitivity (message_of <$> ((λ m, (m_id m, message_body (s_id s) m)) <$> s_messages s)).
  2:{ rewrite <-list_fmap_compose.
      rewrite (list_fmap_ext _ id (s_messages s)), list_fmap_id; [done|].
      intros i m _. apply message_of_body. }
  apply fmap_Permutation, NoDup_Permutation.
  - apply sessionTimestamp_getAll_NoDup.
  - apply NoDup_fmap_1 with (f := fst). by rewrite <-list_fmap_compose.
  - intros [k b]. rewrite sessionTimestamp_getAll_all, list_elem_of_fmap. simpl. split.
    + intros [Hl (Hsid & Hlo & Hhi)]. simpl in *.
      pose proof (Honly k b Hl Hsid) as Hin.
      apply list_elem_of_fmap in Hin as (m & -> & Hm).
      exists m. split; [|done]. rewrite (Hthere m Hm) in Hl. congruence.
    + intros (m & [= -> ->] & Hm). split; [by apply Hthere|].
      specialize (Hts m Hm). unfold in_range. simpl. split; [done|lia].
Qed.

Lemma message_writes_elem_of l k b :
  (k, b) ∈ message_writes l ↔
  ∃ s m, s ∈ l ∧ m ∈ s_messages s ∧ k = m_id m ∧ b = message_body (s_id s) m.
Proof.
  unfold message_writes. rewrite list_elem_of_bind. split.
  - intros (s & Hin & Hs). apply list_elem_of_fmap in Hin as (m & [= -> ->] & Hm).
    by exists s, m.
  - intros (s & m & Hs & Hm & -> & ->). exists s. split; [|done].
    apply list_elem_of_fmap. by exists m.
Qed.

Lemma message_ids_sublist l s :
  s ∈ l → (m_id <$> s_messages s) `sublist_of` (message_writes l).*1.
Proof.
  unfold message_writes. induction l as [|s' l IH]; intros Hs; [by apply elem_of_nil in Hs|].
  rewrite bind_cons, fmap_app, <-list_fmap_compose.
  apply elem_of_cons in Hs as [->|Hs].
  - by apply sublist_inserts_r.
  - apply sublist_inserts_l. by apply IH.
Qed.

Lemma NoDup_session_ids (l : list ChatSession) s1 s2 :
  NoDup (s_id <$> l) → s1 ∈ l → s2 ∈ l → s_id s1 = s_id s2 → s1 = s2.
Proof.
  induction l as [|x l IH]; intros Hnd H1 H2 Hid; [by apply elem_of_nil in H1|].
  rewrite fmap_cons in Hnd. apply NoDup_cons in Hnd as [Hx Hnd].
  apply elem_of_cons in H1 as [->|H1], H2 as [->|H2]; try done.
  - destruct Hx. rewrite Hid. by apply list_elem_of_fmap_2.
  - destruct Hx. rewrite <-Hid. by apply list_elem_of_fmap_2.
  - by apply IH.
Qed.

Lemma migrated_session_record l db s :
  NoDup (s_id <$> l) → s ∈ l →
  sessionsStore (migrateFromLocalStorage None (Some (SessionsJson l)) db) !! s_id s
    = Some (session_body (compress s)).
Proof.
  intros Hnd Hs. unfold migrateFromLocalStorage.
  rewrite (proj1 (saveSessions_stores l db)).
  apply lookup_upserts.
  - assert ((session_writes l).*1 = s_id <$> l) as ->; [|done].
    unfold session_writes. rewrite <-list_fmap_compose. by apply list_fmap_ext.
  - unfold session_writes. apply list_elem_of_fmap. by exists s.
Qed.

(** A complete migration of sessions with distinct ids: each of them is
    listed afterwards with the summary [saveSession] makes of it, and the
    sessions that the slot does not name stay as they were. *)
Theorem migrateFromLocalStorage_sessions l db :
  NoDup (s_id <$> l) →
  (∀ s, s ∈ l →
     compress s ∈ getAllSessions (migrateFromLocalStorage None (Some (SessionsJson l)) db)) ∧
  (∀ k, k ∉ s_id <$> l →
     sessionsStore (migrateFromLocalStorage None (Some (SessionsJson l)) db) !! k
     = sessionsStore db !! k).
Proof.
  intros Hnd. unfold migrateFromLocalStorage.
  rewrite (proj1 (saveSessions_stores l db)).
  assert ((session_writes l).*1 = s_id <$> l) as Hkeys.
  { unfold session_writes. rewrite <-list_fmap_compose. by apply list_fmap_ext. }
  split.
  - intros s Hs. apply getAllSessions_elem_of. by apply migrated_session_record.
  - intros k Hk. apply lookup_upserts_other. by rewrite Hkeys.
Qed.

Lemma migrateFromLocalStorage_sessions_witness :
  (∀ s, s ∈ [Scenario.S1; Scenario.S7] →
     compress s ∈ getAllSessions
       (migrateFromLocalStorage None (Some (SessionsJson [Scenario.S1; Scenario.S7]))
          emptyDB)) ∧
  (∀ k, k ∉ s_id <$> [Scenario.S1; Scenario.S7] →
     sessionsStore
       (migrateFromLocalStorage None (Some (SessionsJson [Scenario.S1; Scenario.S7]))
          emptyDB) !! k
     = sessionsStore emptyDB !! k).
Proof.
  apply (migrateFromLocalStorage_sessions [Scenario.S1; Scenario.S7] emptyDB).
  by apply (bool_decide_unpack _).
Defined.

(** Round trip through the migration. Sessions with distinct ids whose
    messages have ids distinct over the whole slot and dates between the
    epoch and the clock reading, migrated into a store without messages
    under their ids: each session is loaded with its fields and its
    messages, ascending by timestamp. *)
Theorem migrateFromLocalStorage_roundtrip now l db s :
  0 ≤ now →
  NoDup (s_id <$> l) →
  NoDup (message_writes l).*1 →
  (∀ s m, s ∈ l → m ∈ s_messages s → 0 ≤ m_timestamp m ≤ now) →
  (∀ s k b, s ∈ l → messagesStore db !! k = Some b → mb_sessionId b ≠ s_id s) →
  s ∈ l →
  ∃ messages,
    getSessionWithMessages now
      (migrateFromLocalStorage None (Some (SessionsJson l)) db) (s_id s) =
      Some {| s_id := s_id s; s_title := s_title s; s_messages := messages;
              s_createdAt := s_createdAt s; s_updatedAt := s_updatedAt s;
              s_layoutMode := s_layoutMode s; s_config := s_config s;
              s_messageCount := None; s_lastMessagePreview := None |} ∧
    messages ≡ₚ s_messages s ∧
    Sorted (λ a b, m_timestamp a ≤ m_timestamp b) messages.
Proof.
  intros Hnow Hids Hmids Hts Hclean Hs.
  set (db' := migrateFromLocalStorage None (Some (SessionsJson l)) db).
  assert (sessionsStore db' !! s_id s = Some (session_body (compress s))) as Hrec.
  { by apply migrated_session_record. }
  assert (messagesStore db' = upserts (messagesStore db) (message_writes l)) as Hstore
    by apply (proj2 (saveSessions_stores l db)).
  eexists. split; [|split].
  - unfold getSessionWithMessages, bound_ok.
    rewrite Hrec, (proj2 (Z.leb_le 0 now) Hnow). reflexivity.
  - rewrite js_sort_Permutation. apply stored_messages_scan.
    + eapply sublist_NoDup; [exact Hmids|]. by apply message_ids_sublist.
    + intros m Hm. by apply (Hts s).
    + intros m Hm. rewrite Hstore. apply lookup_upserts; [done|].
      apply message_writes_elem_of. by exists s, m.
    + intros k b Hk Hsid. rewrite Hstore in Hk.
      destruct (decide (k ∈ (message_writes l).*1)) as [Hin|Hout].
      * apply list_elem_of_fmap in Hin as ([k' b'] & -> & Hin). simpl in Hk.
        rewrite (lookup_upserts _ _ _ _ Hmids Hin) in Hk. injection Hk as <-.
        apply message_writes_elem_of in Hin as (s' & m & Hs' & Hm & -> & ->).
        simpl in Hsid.
        assert (s' = s) as -> by by eapply NoDup_session_ids.
        simpl. by apply list_elem_of_fmap_2.
      * rewrite lookup_upserts_other in Hk by done. by destruct (Hclean s k b Hs Hk).
  - eapply Sorted_weaken; [|apply js_sort_Sorted].
    + unfold ordered. intros x y. lia.
    + intros x y. lia.
Qed.

End migration_content.

Lemma migrateFromLocalStorage_roundtrip_witness :
  ∃ messages,
    StorageManager.getSessionWithMessages Scenario.later
      (StorageManager.migrateFromLocalStorage None
         (Some (SessionsJson [Scenario.S1; Scenario.S7])) emptyDB) "S1" =
      Some (Scenario.session "S1" "hello" messages 2000) ∧
    messages ≡ₚ [Scenario.hi; Scenario.hello] ∧
    Sorted (λ a b, m_timestamp a ≤ m_timestamp b) messages.
Proof.
  apply (migrateFromLocalStorage_roundtrip Scenario.later
           [Scenario.S1; Scenario.S7] emptyDB Scenario.S1).
  - by vm_compute.
  - by apply (bool_decide_unpack _).
  - by apply (bool_decide_unpack _).
  - assert (Forall (λ s, Forall (λ m, 0 ≤ m_timestamp m ≤ Scenario.later) (s_messages s))
                   [Scenario.S1; Scenario.S7]) as Hall
      by by apply (bool_decide_unpack _).
    intros s m Hs Hm.
    by apply (proj1 (Forall_forall _ _) (proj1 (Forall_forall _ _) Hall s Hs) m Hm).
  - intros s k b _ Hk. simpl in Hk. by rewrite lookup_empty in Hk.
  - by left.
Defined.

(** ** The hook on the fallback store *)

Section fallback_mode.
Import UseAdvancedStorage.

Variable setItemResult : list ChatSession -> SetItemResult.

Lemma find_session_upsert s l : find_session (s_id s) (upsert s l) = Some s.
Proof.
  unfold find_session, upsert.
  destruct (existsb (has_id (s_id s)) l) eqn:Hex.
  - induction l as [|x l IH]; [done|]. simpl in *.
    destruct (has_id (s_id s) x) eqn:Hx; simpl.
    + unfold has_id. by rewrite String.eqb_refl.
    + rewrite Hx. by apply IH.
  - simpl. unfold has_id. by rewrite String.eqb_refl.
Qed.

Lemma find_session_upsert_ne s l sid :
  sid ≠ s_id s → find_session sid (upsert s l) = find_session sid l.
Proof.
  intros Hne. unfold find_session, upsert.
  assert (has_id sid s = false) as Hs.
  { unfold has_id. apply String.eqb_neq. congruence. }
  destruct (existsb (has_id (s_id s)) l).
  - induction l as [|x l IH]; [done|]. simpl.
    destruct (has_id (s_id s) x) eqn:Hx.
    + rewrite Hs.
      assert (has_id sid x = false) as ->.
      { unfold has_id in *. apply String.eqb_eq in Hx. apply String.eqb_neq. congruence. }
      done.
    + by destruct (has_id sid x).
  - simpl. by rewrite Hs.
Qed.

Lemma find_session_without sid l : find_session sid (without sid l) = None.
Proof.
  unfold find_session, without. induction l as [|x l IH]; [done|]. simpl.
  destruct (has_id sid x) eqn:Hx; simpl; [done|]. by rewrite Hx.
Qed.

Lemma find_session_without_ne sid sid' l :
  sid' ≠ sid → find_session sid' (without sid l) = find_session sid' l.
Proof.
  intros Hne. unfold find_session, without. induction l as [|x l IH]; [done|]. simpl.
  destruct (has_id sid x) eqn:Hx; simpl.
  - assert (has_id sid' x = false) as ->; [|done].
    unfold has_id in *. apply String.eqb_eq in Hx. apply String.eqb_neq. congruence.
  - by destruct (has_id sid' x).
Qed.

(** Without the primary store, what [saveSession] was given is what
    [loadSession] returns for its id, whether or not the slot took the
    write; the other ids load what they loaded before. *)
Theorem fallback_save_load f f' now s w :
  storageType (state w) ≠ indexeddb →
  loadSession f now (s_id s) (saveSession setItemResult f' s w) = Some s ∧
  ∀ sid, sid ≠ s_id s →
    loadSession f now sid (saveSession setItemResult f' s w) = loadSession f now sid w.
Proof.
  intros Htype.
  destruct (saveToLocalStorage_facts setItemResult
              (upsert s (sessions (state w))) w) as (_ & _ & _ & Htype' & _).
  assert (storageType (state (saveSession setItemResult f' s w))
            = storageType (state w) ∧
          sessions (state (saveSession setItemResult f' s w))
            = upsert s (sessions (state w))) as [Ht Hs].
  { unfold saveSession. destruct (storageType (state w)) eqn:E; [done|..];
      simpl; by rewrite Htype'. }
  unfold loadSession. rewrite Ht, Hs.
  destruct (storageType (state w)); [done|..]; split;
    try apply find_session_upsert; intros sid Hne; by apply find_session_upsert_ne.
Qed.

(** Without the primary store, a [saveSession] whose write the slot takes
    leaves in the slot exactly the sessions of the state, so that loading
    from the slot changes nothing; a write the slot refuses leaves the slot
    as it was and sets [state.error], while the state has the session. *)
Theorem fallback_save_slot f s w :
  storageType (state w) ≠ indexeddb →
  let w' := saveSession setItemResult f s w in
  sessions (state w') = upsert s (sessions (state w)) ∧
  setItemCalls w' = setItemCalls w ++ [upsert s (sessions (state w))] ∧
  (setItemResult (upsert s (sessions (state w))) = Written →
   slot w' = Some (SessionsJson (sessions (state w'))) ∧
   loadSessionsFromLocalStorage w' = w') ∧
  (setItemResult (upsert s (sessions (state w))) ≠ Written →
   slot w' = slot w ∧ error (state w') = Some quotaMessage).
Proof.
  intros Htype w'.
  destruct (saveToLocalStorage_facts setItemResult
              (upsert s (sessions (state w))) w)
    as (_ & Hcalls & _ & _ & Hok & Hfail).
  assert (w' = set_sessions (upsert s (sessions (state w)))
                 (saveToLocalStorage setItemResult (upsert s (sessions (state w))) w))
    as ->.
  { unfold w', saveSession. by destruct (storageType (state w)). }
  split; [done|]. split; [done|]. split.
  - intros Hw. destruct (Hok Hw) as [Hslot _]. split; [done|].
    unfold loadSessionsFromLocalStorage. simpl. rewrite Hslot.
    unfold set_sessions, with_state. simpl. done.
  - intros Hw. destruct (Hfail Hw) as [Hslot Herr]. done.
Qed.

(** On the fallback store, [deleteSession] makes the session unknown to
    [loadSession], leaves the others, and writes the remaining sessions to
    the slot. *)
Theorem fallback_delete f f' now sid w :
  storageType (state w) = localstorage →
  let w' := deleteSession setItemResult f' sid w in
  loadSession f now sid w' = None ∧
  (∀ sid', sid' ≠ sid → loadSession f now sid' w' = loadSession f now sid' w) ∧
  setItemCalls w' = setItemCalls w ++ [without sid (sessions (state w))] ∧
  (setItemResult (without sid (sessions (state w))) = Written →
   slot w' = Some (SessionsJson (sessions (state w')))).
Proof.
  intros Htype w'.
  destruct (saveToLocalStorage_facts setItemResult
              (without sid (sessions (state w))) w)
    as (_ & Hcalls & _ & Htype' & Hok & _).
  assert (w' = set_sessions (without sid (sessions (state w)))
                 (saveToLocalStorage setItemResult (without sid (sessions (state w))) w))
    as ->.
  { unfold w', deleteSession. by rewrite Htype. }
  unfold loadSession. simpl. rewrite Htype', Htype.
  split; [apply find_session_without|]. split.
  - intros sid' Hne. by apply find_session_without_ne.
  - split; [done|]. intros Hw. by destruct (Hok Hw).
Qed.

Lemma upsert_ids s l :
  NoDup (s_id <$> l) → NoDup (s_id <$> upsert s l) ∧
  (∀ sid, sid ∈ s_id <$> upsert s l ↔ sid = s_id s ∨ sid ∈ s_id <$> l).
Proof.
  intros Hnd. unfold upsert.
  destruct (existsb (has_id (s_id s)) l) eqn:Hex.
  - assert (s_id <$> map (λ x, if has_id (s_id s) x then s else x) l = s_id <$> l) as Heq.
    { clear. induction l as [|x l IH]; [done|]. cbn [map]. rewrite !fmap_cons, IH. f_equal.
      destruct (has_id (s_id s) x) eqn:Hx; [|done].
      unfold has_id in Hx. apply String.eqb_eq in Hx. done. }
    rewrite Heq.
    split; [done|]. intros sid. split; [by right|]. intros [->|]; [|done].
    apply existsb_exists in Hex as (x & Hx & Hid).
    unfold has_id in Hid. apply String.eqb_eq in Hid. rewrite <-Hid.
    apply list_elem_of_fmap_2. by apply list_elem_of_In.
  - rewrite fmap_cons. split.
    + apply NoDup_cons. split; [|done]. intros Hin.
      apply list_elem_of_fmap in Hin as (x & Hid & Hx).
      assert (existsb (has_id (s_id s)) l = true); [|congruence].
      apply existsb_exists. exists x. split; [by apply list_elem_of_In|].
      unfold has_id. apply String.eqb_eq. done.
    + intros sid. by rewrite elem_of_cons.
Qed.

(** The session ids of the state stay distinct under [saveSession] and
    [deleteSession] of the hook, whatever the store and the faults. *)
Theorem hook_keeps_ids_distinct f s sid w :
  NoDup (s_id <$> sessions (state w)) →
  NoDup (s_id <$> sessions (state (saveSession setItemResult f s w))) ∧
  NoDup (s_id <$> sessions (state (deleteSession setItemResult f sid w))).
Proof.
  intros Hnd. split.
  - destruct (saveToLocalStorage_facts setItemResult
                (s :: without (s_id s) (sessions (state w))) w) as (_ & _ & Hs1 & _).
    unfold saveSession.
    destruct (storageType (state w)); [destruct f|..]; simpl;
      rewrite ?Hs1; try done; by apply upsert_ids.
  - unfold deleteSession. simpl. unfold without.
    eapply sublist_NoDup; [exact Hnd|]. apply fmap_sublist.
    clear. induction (sessions (state w)) as [|x l IH]; [done|]. simpl.
    destruct (negb _); [by constructor|by apply sublist_cons].
Qed.

End fallback_mode.

Section fallback_mode_witnesses.
Import UseAdvancedStorage.

Lemma fallback_save_load_witness :
  loadSession NoFault 5000 (s_id Scenario.c3)
    (saveSession Scenario.full NoFault Scenario.c3 Scenario.eight) = Some Scenario.c3 ∧
  ∀ sid, sid ≠ s_id Scenario.c3 →
    loadSession NoFault 5000 sid
      (saveSession Scenario.full NoFault Scenario.c3 Scenario.eight)
    = loadSession NoFault 5000 sid Scenario.eight.
Proof.
  apply (fallback_save_load Scenario.full NoFault NoFault 5000 Scenario.c3 Scenario.eight).
  discriminate.
Defined.

Lemma fallback_save_slot_witness :
  let w' := saveSession Scenario.roomy NoFault Scenario.c3 Scenario.eight in
  sessions (state w') = upsert Scenario.c3 (sessions (state Scenario.eight)) ∧
  setItemCalls w'
    = setItemCalls Scenario.eight ++ [upsert Scenario.c3 (sessions (state Scenario.eight))] ∧
  (Scenario.roomy (upsert Scenario.c3 (sessions (state Scenario.eight))) = Written →
   slot w' = Some (SessionsJson (sessions (state w'))) ∧
   loadSessionsFromLocalStorage w' = w') ∧
  (Scenario.roomy (upsert Scenario.c3 (sessions (state Scenario.eight))) ≠ Written →
   slot w' = slot Scenario.eight ∧ error (state w') = Some quotaMessage).
Proof.
  apply (fallback_save_slot Scenario.roomy NoFault Scenario.c3 Scenario.eight).
  discriminate.
Defined.

Lemma fallback_delete_witness :
  let w' := deleteSession Scenario.roomy NoFault "c3" Scenario.eight in
  loadSession NoFault 5000 "c3" w' = None ∧
  (∀ sid', sid' ≠ "c3"%string →
     loadSession NoFault 5000 sid' w' = loadSession NoFault 5000 sid' Scenario.eight) ∧
  setItemCalls w'
    = setItemCalls Scenario.eight ++ [without "c3" (sessions (state Scenario.eight))] ∧
  (Scenario.roomy (without "c3" (sessions (state Scenario.eight))) = Written →
   slot w' = Some (SessionsJson (sessions (state w')))).
Proof.
  apply (fallback_delete Scenario.roomy NoFault NoFault 5000 "c3" Scenario.eight).
  reflexivity.
Defined.

Lemma hook_keeps_ids_distinct_witness :
  NoDup (s_id <$> sessions (state
           (saveSession Scenario.roomy NoFault Scenario.c3 Scenario.eight))) ∧
  NoDup (s_id <$> sessions (state
           (deleteSession Scenario.roomy NoFault "c3" Scenario.eight))).
Proof.
  apply (hook_keeps_ids_distinct Scenario.roomy NoFault Scenario.c3 "c3" Scenario.eight).
  by apply (bool_decide_unpack _).
Defined.

End fallback_mode_witnesses.

(** ** Start-up *)

Section startup.
Import UseAdvancedStorage.

Lemma loadSessionsFromLocalStorage_keeps w :
  db (loadSessionsFromLocalStorage w) = db w ∧
  slot (loadSessionsFromLocalStorage w) = slot w ∧
  setItemCalls (loadSessionsFromLocalStorage w) = setItemCalls w ∧
  isLoading (state (loadSessionsFromLocalStorage w)) = isLoading (state w) ∧
  error (state (loadSessionsFromLocalStorage w)) = error (state w) ∧
  storageType (state (loadSessionsFromLocalStorage w)) = storageType (state w).
Proof.
  unfold loadSessionsFromLocalStorage.
  destruct (slot w) as [[]|] eqn:E; simpl; by rewrite ?E.
Qed.

Lemma loadSessionsFromIndexedDB_keeps now lf faults w w' :
  loadSessionsFromIndexedDB now lf faults w = Resolved w' →
  lf = NoFault ∧
  slot w' = slot w ∧ setItemCalls w' = setItemCalls w ∧
  isLoading (state w') = isLoading (state w) ∧
  error (state w') = error (state w) ∧
  storageType (state w') = storageType (state w).
Proof.
  unfold loadSessionsFromIndexedDB. destruct lf; [|done..]. simpl.
  destruct (loadSummaries _ _ _ _). by intros [= <-].
Qed.

Lemma loadSessionsFromIndexedDB_resolves now faults w :
  ∃ w', loadSessionsFromIndexedDB now NoFault faults w = Resolved w'.
Proof.
  unfold loadSessionsFromIndexedDB. simpl. destruct (loadSummaries _ _ _ _). eauto.
Qed.

(** How [initializeStorage] ends. It never leaves the store undecided nor
    the loading flag set, and it never writes the slot. The hook is on the
    primary store exactly when the engine opened and the sessions could be
    listed; then the slot holds no data and no error is set. When the
    engine does not open, database and slot are as they were. When it
    opens, the slot holds no data afterwards, whether the migration ran
    through, stopped early, or the listing failed. *)
Theorem initializeStorage_outcome thrown engine failAt now listFault faults w :
  let w' := initializeStorage thrown engine failAt now listFault faults w in
  storageType (state w') ≠ none ∧
  isLoading (state w') = false ∧
  setItemCalls w' = setItemCalls w ∧
  (storageType (state w') = indexeddb ↔ engine = Opens ∧ listFault = NoFault) ∧
  (storageType (state w') = indexeddb →
   slot_truthy (slot w') = false ∧ error (state w') = None) ∧
  (engine ≠ Opens →
   storageType (state w') = localstorage ∧ db w' = db w ∧ slot w' = slot w) ∧
  (engine = Opens → slot_truthy (slot w') = false).
Proof.
  intros w'. unfold w', initializeStorage.
  set (w0 := set_error None (set_isLoading true w)).
  assert (slot_truthy (slot (migrateIfNeeded failAt w0)) = false ∧
          setItemCalls (migrateIfNeeded failAt w0) = setItemCalls w ∧
          error (state (migrateIfNeeded failAt w0)) = None) as (Hslot & Hcalls & Herr).
  { unfold migrateIfNeeded. simpl. destruct (slot w) as [[]|] eqn:E; simpl; by rewrite ?E. }
  destruct engine.
  - pose proof (loadSessionsFromLocalStorage_keeps (set_storageType localstorage w0))
      as (Hd & Hs & Hc & Hl & He & Ht).
    simpl. rewrite Hd, Hs, Hc, Ht. simpl.
    repeat split; try done; try (intros [? ?]; done).
  - pose proof (loadSessionsFromLocalStorage_keeps
                  (set_storageType localstorage (set_error (Some (failureMessage thrown)) w0)))
      as (Hd & Hs & Hc & Hl & He & Ht).
    simpl. rewrite Hd, Hs, Hc, Ht. simpl.
    repeat split; try done; try (intros [? ?]; done).
  - set (w1 := set_storageType indexeddb (migrateIfNeeded failAt w0)).
    destruct (loadSessionsFromIndexedDB now listFault faults w1) as [w2|] eqn:Hload.
    + apply loadSessionsFromIndexedDB_keeps in Hload as (-> & Hs & Hc & Hl & He & Ht).
      simpl. rewrite Hs, Hc, He, Ht. simpl.
      repeat split; try done.
    + assert (listFault ≠ NoFault) as Hfault.
      { intros ->. destruct (loadSessionsFromIndexedDB_resolves now faults w1). congruence. }
      pose proof (loadSessionsFromLocalStorage_keeps
                    (set_storageType localstorage (set_error (Some (failureMessage thrown)) w1)))
        as (Hd & Hs & Hc & Hl & He & Ht).
      simpl. rewrite Hs, Hc, Ht. simpl.
      repeat split; try done; try (intros [? ?]; done).
Qed.

Lemma loadSummary_keeps_ids now fl fs cs d k :
  is_Some (sessionsStore (loadSummary now fl fs cs d).1 !! k) ↔
  is_Some (sessionsStore d !! k).
Proof.
  unfold loadSummary. destruct (needs_repair cs); [|done].
  destruct fl; simpl; try done.
  destruct (StorageManager.getSessionWithMessages now d (cs_id cs)) as [full|] eqn:Hfull;
    [|done].
  destruct fs; simpl; try done.
  rewrite SaveFacts.sessionsStore_saveSession.
  destruct (getSessionWithMessages_is_Some now d (cs_id cs)) as (full' & Hfull' & Hid).
  { unfold StorageManager.getSessionWithMessages, StorageManager.bound_ok in Hfull.
    destruct (0 <=? now) eqn:E; [by apply Z.leb_le|].
    by destruct (sessionsStore d !! cs_id cs). }
  { unfold StorageManager.getSessionWithMessages in Hfull.
    by destruct (sessionsStore d !! cs_id cs). }
  assert (full' = full) as -> by congruence.
  destruct (decide (k = s_id full)) as [->|Hne].
  - rewrite lookup_insert_eq. split; [|by eauto]. intros _.
    rewrite Hid. unfold StorageManager.getSessionWithMessages in Hfull.
    by destruct (sessionsStore d !! cs_id cs).
  - by rewrite lookup_insert_ne.
Qed.

Lemma loadSummaries_keeps_ids now faults l : ∀ d k,
  is_Some (sessionsStore (loadSummaries now faults l d).1 !! k) ↔
  is_Some (sessionsStore d !! k).
Proof.
  induction l as [|cs l IH]; intros d k; [done|]. cbn [loadSummaries].
  pose proof (loadSummary_keeps_ids now (faults (cs_id cs)).1 (faults (cs_id cs)).2 cs d k)
    as Hstep.
  destruct (loadSummary now _ _ cs d) as [d1 s]. specialize (IH d1 k).
  destruct (loadSummaries now faults l d1) as [d2 ss]. simpl in *. by rewrite IH.
Qed.

(** A start-up whose migration stops at the [k]-th session still removes
    the slot: a session of the slot from position [k] on, with an id that
    neither the database nor an earlier session of the slot has, is in
    neither store afterwards. *)
Theorem initializeStorage_interrupted thrown k l s now listFault faults w :
  slot w = Some (SessionsJson l) →
  s ∈ drop k l →
  sessionsStore (db w) !! s_id s = None →
  s_id s ∉ s_id <$> take k l →
  let w' := initializeStorage thrown Opens (Some k) now listFault faults w in
  slot w' = None ∧ sessionsStore (db w') !! s_id s = None.
Proof.
  intros Hslot Hs Hnew Hearlier w'. unfold w', initializeStorage.
  set (w0 := set_error None (set_isLoading true w)).
  assert (migrateIfNeeded (Some k) w0 =
          removeItem (with_db (StorageManager.migrateFromLocalStorage (Some k)
                                 (slot w) (db w)) w0)) as Hmig.
  { unfold migrateIfNeeded. simpl. by rewrite Hslot. }
  assert (sessionsStore (StorageManager.migrateFromLocalStorage (Some k) (slot w) (db w))
            !! s_id s = None) as Hnone.
  { rewrite Hslot. unfold StorageManager.migrateFromLocalStorage.
    rewrite (proj1 (saveSessions_stores _ _)).
    rewrite lookup_upserts_other; [done|].
    unfold session_writes. by rewrite <-list_fmap_compose. }
  set (w1 := set_storageType indexeddb (migrateIfNeeded (Some k) w0)).
  assert (slot w1 = None ∧ sessionsStore (db w1) !! s_id s = None) as [Hs1 Hd1].
  { unfold w1. rewrite Hmig. simpl. done. }
  destruct (loadSessionsFromIndexedDB now listFault faults w1) as [w2|] eqn:Hload.
  - pose proof (loadSessionsFromIndexedDB_keeps _ _ _ _ _ Hload) as (-> & Hs2 & _).
    simpl. split; [congruence|].
    unfold loadSessionsFromIndexedDB in Hload. simpl in Hload.
    pose proof (loadSummaries_keeps_ids now faults
                  (StorageManager.getAllSessions (db w1)) (db w1) (s_id s)) as Hids.
    destruct (loadSummaries _ _ _ _) as [d2 ss]. injection Hload as <-. simpl in *.
    apply eq_None_not_Some. rewrite Hids. by rewrite Hd1; intros [? ?].
  - pose proof (loadSessionsFromLocalStorage_keeps
                  (set_storageType localstorage (set_error (Some (failureMessage thrown)) w1)))
      as (Hd & Hs' & _).
    simpl. rewrite Hs', Hd. simpl. done.
Qed.

End startup.

Lemma initializeStorage_interrupted_witness :
  let w' := UseAdvancedStorage.initializeStorage None UseAdvancedStorage.Opens
              (Some 1%nat) 5000 NoFault Scenario.noFaults Scenario.beforeStartup in
  UseAdvancedStorage.slot w' = None ∧
  sessionsStore (UseAdvancedStorage.db w') !! s_id Scenario.S7 = None.
Proof.
  apply (initializeStorage_interrupted None 1 [Scenario.S1; Scenario.S7] Scenario.S7 5000
           NoFault Scenario.noFaults Scenario.beforeStartup).
  - reflexivity.
  - by left.
  - reflexivity.
  - by apply (bool_decide_unpack _).
Defined.

(** ** The page effect and the visible messages *)

Section page.
Import UseAdvancedStorage ChatPage.

Variable setItemResult : list ChatSession -> SetItemResult.

(** The page effect writes the slot at most twice, and a second time only
    after a [QuotaExceededError] of the first write; before the page is
    mounted it writes nothing and changes nothing. *)
Theorem saveSessionsEffect_writes now listFault faults p :
  let l := sessions (state (storage p)) in
  let r := saveSessionsEffect setItemResult now listFault faults p in
  (isMounted p = false → r = (p, NotMounted)) ∧
  (isMounted p = true →
   setItemCalls (storage r.1) =
     setItemCalls (storage p) ++
       l :: match setItemResult l with
            | QuotaExceededError => [recentSessions l]
            | _ => []
            end) ∧
  (r.2 = Saved ↔ isMounted p = true ∧ setItemResult l = Written) ∧
  (r.2 = Saved → slot (storage r.1) = Some (SessionsJson l) ∧
                 db (storage r.1) = db (storage p) ∧
                 state (storage r.1) = state (storage p)).
Proof.
  cbv zeta. unfold saveSessionsEffect, setItem.
  destruct (isMounted p) eqn:Hm.
  2:{ repeat split; try done; by intros [? ?]. }
  destruct (setItemResult (sessions (state (storage p)))) eqn:H1; simpl.
  - repeat split; try done.
  - destruct (setItemResult (recentSessions (sessions (state (storage p))))) eqn:H2;
      simpl; rewrite ?(proj2 (refreshSessions_slot _ _ _ _)); simpl;
      rewrite <-?(assoc_L (++)); repeat split; try done; by intros [? ?].
  - repeat split; try done; by intros [? ?].
Qed.

(** After a truncation the current session id, when it is a non-empty
    string, names one of the sessions that were kept; in every other case
    the effect leaves the current session id alone. *)
Theorem saveSessionsEffect_current now listFault faults p :
  let l := sessions (state (storage p)) in
  let r := saveSessionsEffect setItemResult now listFault faults p in
  (r.2 = TruncatedAndSaved →
   ∀ sid, currentSessionId r.1 = Some sid → sid ≠ ""%string →
          sid ∈ s_id <$> recentSessions l) ∧
  (r.2 ≠ TruncatedAndSaved → currentSessionId r.1 = currentSessionId p).
Proof.
  cbv zeta. unfold saveSessionsEffect, setItem.
  destruct (isMounted p) eqn:Hm; [|done].
  destruct (setItemResult (sessions (state (storage p)))) eqn:H1; simpl; [done| |done].
  destruct (setItemResult (recentSessions (sessions (state (storage p))))) eqn:H2;
    simpl; [|done..].
  split; [|done]. intros _ sid Hcur Hne.
  destruct (truthy (currentSessionId p)) eqn:Ht; simpl in Hcur.
  - destruct (existsb _ _) eqn:Hex; simpl in Hcur; [|done].
    apply existsb_exists in Hex as (x & Hx & Hid).
    apply bool_decide_eq_true in Hid. rewrite Hcur in Hid. injection Hid as <-.
    apply list_elem_of_fmap_2. by apply list_elem_of_In.
  - rewrite Hcur in Ht. simpl in Ht. apply negb_false_iff, String.eqb_eq in Ht. done.
Qed.

(** The visible messages are always the end of the conversation: a suffix
    of the messages, as many as the count allows, or all of them when the
    count is 0. *)
Theorem getVisibleMessages_suffix (count : nat) (messages : list Message) :
  getVisibleMessages count messages `suffix_of` messages ∧
  length (getVisibleMessages count messages) =
    (if decide (count = 0)%nat then length messages
     else Nat.min count (length messages)) ∧
  last (getVisibleMessages count messages) = last messages.
Proof.
  unfold getVisibleMessages.
  destruct (decide (length messages ≤ count)%nat) as [Hle|Hgt].
  - split; [done|]. split; [|done]. destruct (decide (count = 0%nat)); [done|lia].
  - destruct count as [|n]; [done|]. split; [apply suffix_drop|]. split.
    + rewrite length_drop. rewrite decide_False by done. lia.
    + rewrite !last_lookup, length_drop, lookup_drop. f_equal. lia.
Qed.

(** Starting from the reset count of 10, [k] loads make
    [min(10 + 10k, n)] of the [n] messages visible, and once
    [10 (k + 1) >= n] every message is shown. *)
Theorem loadMoreMessages_reaches (k : nat) (messages : list Message) :
  (0 < k)%nat →
  Nat.iter k (loadMoreMessages false messages) resetVisibleMessages
    = Nat.min (10 + 10 * k) (length messages) ∧
  ((length messages ≤ 10 + 10 * k)%nat →
   getVisibleMessages (Nat.iter k (loadMoreMessages false messages) resetVisibleMessages)
                      messages = messages).
Proof.
  intros Hk.
  assert (Nat.iter k (loadMoreMessages false messages) resetVisibleMessages
          = Nat.min (10 + 10 * k) (length messages)) as Hiter.
  { destruct k as [|k]; [lia|]. clear Hk. induction k as [|k IH].
    - simpl. unfold loadMoreMessages, resetVisibleMessages. lia.
    - rewrite Nat.iter_succ, IH. unfold loadMoreMessages. lia. }
  split; [done|]. intros Hall. rewrite Hiter. unfold getVisibleMessages.
  rewrite decide_True; [done|lia].
Qed.

End page.

Lemma loadMoreMessages_reaches_witness :
  Nat.iter 1 (ChatPage.loadMoreMessages false (s_messages Scenario.S7))
           ChatPage.resetVisibleMessages
    = Nat.min (10 + 10 * 1) (length (s_messages Scenario.S7)) ∧
  ((length (s_messages Scenario.S7) ≤ 10 + 10 * 1)%nat →
   ChatPage.getVisibleMessages
     (Nat.iter 1 (ChatPage.loadMoreMessages false (s_messages Scenario.S7))
               ChatPage.resetVisibleMessages)
     (s_messages Scenario.S7) = s_messages Scenario.S7).
Proof. apply (loadMoreMessages_reaches 1 (s_messages Scenario.S7)). lia. Defined.

(** ** The model list and its cache *)

Section model_list.
Import ModelsApi.

Variable toLowerCase : string -> string.
Variable localeCompare : string -> string -> Z.

Lemma find_id_None (current : ModelInfo) acc :
  List.find (λ m, String.eqb (mi_id m) (mi_id current)) acc = None ↔
  mi_id current ∉ mi_id <$> acc.
Proof.
  induction acc as [|m acc IH]; [split; [intros _; apply not_elem_of_nil|done]|].
  rewrite fmap_cons, not_elem_of_cons. cbn [List.find].
  destruct (String.eqb_spec (mi_id m) (mi_id current)) as [E|E].
  - split; [done|]. by intros [? _].
  - rewrite IH. split; [by intros ?; split|by intros [_ ?]].
Qed.

Lemma find_id_Some (current existing : ModelInfo) acc :
  List.find (λ m, String.eqb (mi_id m) (mi_id current)) acc = Some existing →
  existing ∈ acc ∧ mi_id existing = mi_id current.
Proof.
  intros H. apply find_some in H as [Hin Hid].
  split; [by apply list_elem_of_In|by apply String.eqb_eq].
Qed.

Lemma replace_first_ids current acc :
  mi_id current ∈ mi_id <$> acc →
  mi_id <$> replace_first current acc = mi_id <$> acc.
Proof.
  induction acc as [|m acc IH]; [done|].
  rewrite fmap_cons, elem_of_cons. cbn [replace_first].
  destruct (String.eqb_spec (mi_id m) (mi_id current)) as [E|E]; intros Hin.
  - by rewrite !fmap_cons, E.
  - rewrite !fmap_cons, IH; [done|]. by destruct Hin.
Qed.

Lemma replace_first_elem_of current acc x :
  x ∈ replace_first current acc → x = current ∨ x ∈ acc.
Proof.
  induction acc as [|m acc IH]; simpl; [by right|].
  destruct (String.eqb (mi_id m) (mi_id current)).
  - rewrite !elem_of_cons. intros [->|?]; auto.
  - rewrite !elem_of_cons. intros [->|?]; [auto|]. destruct IH; auto.
Qed.

(** In a list of distinct ids, the replacement swaps the one model of that
    id for [current] and keeps the others. *)
Lemma replace_first_keeps current existing acc x :
  NoDup (mi_id <$> acc) → existing ∈ acc → mi_id existing = mi_id current →
  x ∈ acc →
  (x = existing ∧ current ∈ replace_first current acc) ∨
  (x ≠ existing ∧ x ∈ replace_first current acc).
Proof.
  induction acc as [|m acc IH]; [by intros _ ?%elem_of_nil|].
  rewrite fmap_cons, NoDup_cons. cbn [replace_first]. intros [Hm Hnd] He Hid Hx.
  destruct (String.eqb_spec (mi_id m) (mi_id current)) as [E|E].
  - assert (existing = m) as ->.
    { apply elem_of_cons in He as [->|He]; [done|].
      destruct Hm. rewrite E, <-Hid. by apply list_elem_of_fmap_2. }
    apply elem_of_cons in Hx as [->|Hx].
    + left. split; [done|]. by left.
    + right. split; [|by right]. intros ->. destruct Hm. by apply list_elem_of_fmap_2.
  - assert (existing ∈ acc) as He'.
    { apply elem_of_cons in He as [->|He]; [|done]. by destruct E. }
    apply elem_of_cons in Hx as [->|Hx].
    + right. split; [|by left]. intros ->. by destruct E.
    + destruct (IH Hnd He' Hid Hx) as [[-> ?]|[? ?]];
        [left|right]; (split; [done|by right]).
Qed.

(** What the [reduce] keeps true of its accumulator: it holds models of
    the input, under distinct ids, and for every model of the input one of
    the same id and of a provider at least as good. *)
Lemma dedupe_invariant (models : list ModelInfo) :
  let acc := foldl dedupe_step [] models in
  (∀ m, m ∈ acc → m ∈ models) ∧
  NoDup (mi_id <$> acc) ∧
  (∀ m, m ∈ models →
        ∃ m', m' ∈ acc ∧ mi_id m' = mi_id m ∧
              getProviderPriority (mi_owned_by m') ≤ getProviderPriority (mi_owned_by m)).
Proof.
  cbv zeta. induction models as [|current models IH] using rev_ind.
  { simpl. split; [done|]. split; [constructor|]. by intros m ?%elem_of_nil. }
  rewrite foldl_app. simpl. destruct IH as (Hsub & Hnd & Hrep).
  set (acc := foldl dedupe_step [] models) in *. unfold dedupe_step.
  destruct (List.find _ acc) as [existing|] eqn:Hfind.
  - apply find_id_Some in Hfind as [Hex Hid].
    destruct (Z.ltb_spec (getProviderPriority (mi_owned_by current))
                         (getProviderPriority (mi_owned_by existing))) as [Hlt|Hge].
    + split; [|split].
      * intros m Hm. apply elem_of_app.
        apply replace_first_elem_of in Hm as [Heq|Hm]; [right; subst m; by left|].
        left. auto.
      * rewrite replace_first_ids; [done|]. rewrite <-Hid.
        by apply list_elem_of_fmap_2.
      * intros m Hm. apply elem_of_app in Hm as [Hm|Hm].
        -- destruct (Hrep m Hm) as (m' & Hm' & Hid' & Hp').
           destruct (replace_first_keeps current existing acc m' Hnd Hex Hid Hm')
             as [[Heq Hcur]|[_ Hkept]].
           ++ subst m'. exists current. split; [done|]. split; [congruence|lia].
           ++ by exists m'.
        -- apply list_elem_of_singleton in Hm. subst m.
           exists current. split; [|split; [done|lia]].
           destruct (replace_first_keeps current existing acc existing Hnd Hex Hid Hex)
             as [[_ ?]|[? _]]; done.
    + split; [|split; [done|]].
      * intros m Hm. apply elem_of_app. left. auto.
      * intros m Hm. apply elem_of_app in Hm as [Hm|Hm]; [auto|].
        apply list_elem_of_singleton in Hm. subst m.
        exists existing. split; [done|]. split; [done|lia].
  - apply find_id_None in Hfind. split; [|split].
    + intros m Hm. apply elem_of_app. apply elem_of_app in Hm as [Hm|Hm]; [left; auto|].
      by right.
    + rewrite fmap_app. apply NoDup_app. split; [done|]. split; [|apply NoDup_singleton].
      intros x Hx Hx'. apply list_elem_of_singleton in Hx'. by subst x.
    + intros m Hm. apply elem_of_app in Hm as [Hm|Hm].
      * destruct (Hrep m Hm) as (m' & Hm' & ?). exists m'.
        split; [|done]. apply elem_of_app. by left.
      * apply list_elem_of_singleton in Hm. subst m.
        exists current. split; [|split; [done|lia]]. apply elem_of_app. right. by left.
Qed.

(** The list made of an answer holds only chat models of the answer, no
    id twice, and for every chat model of the answer a model of the same
    id whose provider is at least as good: of the models that share an id
    one of the best provider is kept. *)
Theorem chatModels_content (body : list ModelInfo) :
  let kept := chatModels toLowerCase localeCompare body in
  (∀ m, m ∈ kept → m ∈ body ∧ isChatModel toLowerCase m = true) ∧
  NoDup (mi_id <$> kept) ∧
  (∀ m, m ∈ body → isChatModel toLowerCase m = true →
        ∃ m', m' ∈ kept ∧ mi_id m' = mi_id m ∧
              getProviderPriority (mi_owned_by m') ≤ getProviderPriority (mi_owned_by m)).
Proof.
  cbv zeta. unfold chatModels.
  destruct (dedupe_invariant (List.filter (isChatModel toLowerCase) body))
    as (Hsub & Hnd & Hrep). cbv zeta in *.
  split; [|split].
  - intros m Hm%js_sort_elem_of. apply Hsub in Hm.
    apply list_elem_of_In, filter_In in Hm as [Hm ?]. split; [|done].
    by apply list_elem_of_In.
  - by rewrite js_sort_Permutation.
  - intros m Hm Hchat. destruct (Hrep m) as (m' & Hm' & ?).
    { apply list_elem_of_In, filter_In. split; [by apply list_elem_of_In|done]. }
    exists m'. split; [|done]. by apply js_sort_elem_of.
Qed.

(** When [localeCompare] orders any two strings one way or the other, the
    list is in the order of the comparator, and so by series: a model
    never comes after one of a later series. *)
Theorem chatModels_order (body : list ModelInfo) :
  (∀ a b, localeCompare a b ≤ 0 ∨ localeCompare b a ≤ 0) →
  let kept := chatModels toLowerCase localeCompare body in
  Sorted (ordered (compareModels localeCompare)) kept ∧
  StronglySorted (λ a b, getModelPriority (mi_id a) ≤ getModelPriority (mi_id b)) kept.
Proof.
  intros Htotal kept.
  assert (Sorted (ordered (compareModels localeCompare)) kept) as Hsorted.
  { apply js_sort_Sorted. intros x y. unfold compareModels.
    destruct (Z.eqb_spec (getModelPriority (mi_id x)) (getModelPriority (mi_id y)))
      as [E|E]; simpl.
    - rewrite E, Z.eqb_refl. simpl. apply Htotal.
    - destruct (Z.eqb_spec (getModelPriority (mi_id y)) (getModelPriority (mi_id x)));
        simpl; lia. }
  split; [done|].
  apply Sorted_StronglySorted; [intros x y z; lia|].
  eapply Sorted_weaken; [|exact Hsorted].
  intros x y. unfold ordered, compareModels.
  destruct (Z.eqb_spec (getModelPriority (mi_id x)) (getModelPriority (mi_id y)));
    simpl; lia.
Qed.

Lemma cacheKeyOf_truthy apiKey baseUrl : String.eqb (cacheKeyOf apiKey baseUrl) "" = false.
Proof. unfold cacheKeyOf. by destruct (slice_last 10 apiKey). Qed.

Lemma fetchAvailableModels_miss now body writes apiKey baseUrl a :
  apiKey ≠ ""%string → ¬ fresh_entry now apiKey baseUrl a →
  fetchAvailableModels toLowerCase localeCompare now (Ok body) writes apiKey baseUrl a =
  let fresh := {| data := chatModels toLowerCase localeCompare body; timestamp := now;
                  cacheKey := cacheKeyOf apiKey baseUrl |} in
  ({| modelsCache := Some fresh;
      cacheSlot := if writes then Some (CacheJson fresh) else cacheSlot a;
      requests := requests a ++ [(baseUrl ++ "/models")%string] |},
   Returns (chatModels toLowerCase localeCompare body)).
Proof.
  intros Hkey%String.eqb_neq Hold. unfold fetchAvailableModels. rewrite Hkey.
  unfold fresh_entry, consulted in Hold. cbn [modelsCache].
  assert (∀ a1, cacheSlot a1 = cacheSlot a → requests a1 = requests a →
    fetchAndCache toLowerCase localeCompare now (Ok body) writes
                  (cacheKeyOf apiKey baseUrl) baseUrl a1 =
    ({| modelsCache := Some {| data := chatModels toLowerCase localeCompare body;
                               timestamp := now;
                               cacheKey := cacheKeyOf apiKey baseUrl |};
        cacheSlot := if writes
                     then Some (CacheJson
                            {| data := chatModels toLowerCase localeCompare body;
                               timestamp := now;
                               cacheKey := cacheKeyOf apiKey baseUrl |})
                     else cacheSlot a;
        requests := requests a ++ [(baseUrl ++ "/models")%string] |},
     Returns (chatModels toLowerCase localeCompare body))) as Hmiss.
  { intros a1 Hs Hr. unfold fetchAndCache, saveModelsCache.
    destruct writes; simpl; by rewrite ?Hs, ?Hr. }
  destruct (match modelsCache a with Some c => Some c | None => loadModelsCache a end)
    as [c|] eqn:Hc; [|by apply Hmiss].
  destruct (cacheValid now (cacheKeyOf apiKey baseUrl) c) eqn:Hvalid; [|by apply Hmiss].
  apply cacheValid_spec in Hvalid as [? ?]. destruct Hold. by exists c.
Qed.

(** A list that was fetched is served again without a request for the
    cache duration after the fetch, to every caller whose base URL and
    last ten characters of the API key are those of the fetch, whatever
    the rest of the key is. *)
Theorem fetchAvailableModels_again now now' body response' writes writes'
    apiKey apiKey' baseUrl a :
  apiKey ≠ ""%string → apiKey' ≠ ""%string →
  slice_last 10 apiKey' = slice_last 10 apiKey →
  ¬ fresh_entry now apiKey baseUrl a →
  now' - now < CACHE_DURATION →
  let r1 := fetchAvailableModels toLowerCase localeCompare now (Ok body) writes
                                 apiKey baseUrl a in
  let r2 := fetchAvailableModels toLowerCase localeCompare now' response' writes'
                                 apiKey' baseUrl r1.1 in
  r1.2 = Returns (chatModels toLowerCase localeCompare body) ∧
  r2 = (r1.1, r1.2).
Proof.
  intros Hkey Hkey' Hlast Hold Hage. cbv zeta.
  rewrite fetchAvailableModels_miss by done. cbv zeta. split; [done|].
  unfold fetchAvailableModels. apply String.eqb_neq in Hkey'. rewrite Hkey'.
  cbn [modelsCache fst snd cacheSlot requests].
  assert (cacheValid now' (cacheKeyOf apiKey' baseUrl)
            {| data := chatModels toLowerCase localeCompare body; timestamp := now;
               cacheKey := cacheKeyOf apiKey baseUrl |} = true) as ->; [|done].
  apply cacheValid_spec. split; [|done]. simpl. unfold cacheKeyOf. by rewrite Hlast.
Qed.

(** A fetched list whose write to the cache slot went through outlives
    the page: a module loaded anew, with the module variable empty, serves
    it from the slot without a request for the cache duration after the
    fetch, unless the fetch was stamped with the clock reading 0. *)
Theorem fetchAvailableModels_reloaded now now' body response' writes'
    apiKey baseUrl a :
  apiKey ≠ ""%string → now ≠ 0 →
  ¬ fresh_entry now apiKey baseUrl a →
  now' - now < CACHE_DURATION →
  let r1 := fetchAvailableModels toLowerCase localeCompare now (Ok body) true
                                 apiKey baseUrl a in
  let reloaded := {| modelsCache := None; cacheSlot := cacheSlot r1.1;
                     requests := requests r1.1 |} in
  let r2 := fetchAvailableModels toLowerCase localeCompare now' response' writes'
                                 apiKey baseUrl reloaded in
  r2.2 = r1.2 ∧ requests r2.1 = requests r1.1 ∧ modelsCache r2.1 = modelsCache r1.1.
Proof.
  intros Hkey Hnow Hold Hage. cbv zeta.
  rewrite fetchAvailableModels_miss by done. cbv zeta.
  unfold fetchAvailableModels. apply String.eqb_neq in Hkey. rewrite Hkey.
  cbn [modelsCache fst snd cacheSlot requests]. unfold loadModelsCache.
  cbn [modelsCache fst snd cacheSlot requests timestamp cacheKey].
  rewrite cacheKeyOf_truthy. apply Z.eqb_neq in Hnow. rewrite Hnow.
  cbn [negb andb].
  assert (cacheValid now' (cacheKeyOf apiKey baseUrl)
            {| data := chatModels toLowerCase localeCompare body; timestamp := now;
               cacheKey := cacheKeyOf apiKey baseUrl |} = true) as ->; [|done].
  by apply cacheValid_spec.
Qed.

(** After [clearModelsCache] has removed the slot, the next call with an
    API key asks the server, whatever was cached before. *)
Theorem clearModelsCache_refetches now response writes apiKey baseUrl a :
  apiKey ≠ ""%string →
  let r := fetchAvailableModels toLowerCase localeCompare now response writes
                                apiKey baseUrl (clearModelsCache true a) in
  requests r.1 = requests a ++ [(baseUrl ++ "/models")%string] ∧
  r.2 = match response with
        | Ok body => Returns (chatModels toLowerCase localeCompare body)
        | _ => Throws
        end.
Proof.
  intros Hkey%String.eqb_neq. cbv zeta. unfold fetchAvailableModels. rewrite Hkey.
  unfold clearModelsCache, loadModelsCache, fetchAndCache, saveModelsCache.
  cbn [modelsCache cacheSlot requests].
  by destruct response, writes.
Qed.

End model_list.

Lemma chatModels_order_witness :
  let kept := ModelsApi.chatModels id (λ _ _, 0) [Scenario.gpt4] in
  Sorted (ordered (ModelsApi.compareModels (λ _ _, 0))) kept ∧
  StronglySorted (λ a b, ModelsApi.getModelPriority (ModelsApi.mi_id a)
                         ≤ ModelsApi.getModelPriority (ModelsApi.mi_id b)) kept.
Proof. apply (chatModels_order id (λ _ _, 0) [Scenario.gpt4]). intros _ _. by left. Defined.

Lemma fetchAvailableModels_again_witness :
  let r1 := ModelsApi.fetchAvailableModels id (λ _ _, 0) Scenario.later
              (ModelsApi.Ok [Scenario.gpt4]) false "sk-0123456789" "https://api"
              Scenario.dayOld in
  let r2 := ModelsApi.fetchAvailableModels id (λ _ _, 0) (Scenario.later + 1000)
              ModelsApi.NetworkError false "pk-0123456789" "https://api" r1.1 in
  r1.2 = ModelsApi.Returns (ModelsApi.chatModels id (λ _ _, 0) [Scenario.gpt4]) ∧
  r2 = (r1.1, r1.2).
Proof.
  apply (fetchAvailableModels_again id (λ _ _, 0) Scenario.later (Scenario.later + 1000)
           [Scenario.gpt4] ModelsApi.NetworkError false false
           "sk-0123456789" "pk-0123456789" "https://api" Scenario.dayOld).
  - discriminate.
  - discriminate.
  - reflexivity.
  - intros (c & Hc & _ & Hage). injection Hc as <-. vm_compute in Hage. discriminate.
  - reflexivity.
Defined.

Lemma fetchAvailableModels_reloaded_witness :
  let r1 := ModelsApi.fetchAvailableModels id (λ _ _, 0) Scenario.later
              (ModelsApi.Ok [Scenario.gpt4]) true "sk-0123456789" "https://api"
              Scenario.dayOld in
  let reloaded := {| ModelsApi.modelsCache := None;
                     ModelsApi.cacheSlot := ModelsApi.cacheSlot r1.1;
                     ModelsApi.requests := ModelsApi.requests r1.1 |} in
  let r2 := ModelsApi.fetchAvailableModels id (λ _ _, 0) (Scenario.later + 1000)
              ModelsApi.NetworkError false "sk-0123456789" "https://api" reloaded in
  r2.2 = r1.2 ∧ ModelsApi.requests r2.1 = ModelsApi.requests r1.1 ∧
  ModelsApi.modelsCache r2.1 = ModelsApi.modelsCache r1.1.
Proof.
  apply (fetchAvailableModels_reloaded id (λ _ _, 0) Scenario.later (Scenario.later + 1000)
           [Scenario.gpt4] ModelsApi.NetworkError false
           "sk-0123456789" "https://api" Scenario.dayOld).
  - discriminate.
  - discriminate.
  - intros (c & Hc & _ & Hage). injection Hc as <-. vm_compute in Hage. discriminate.
  - reflexivity.
Defined.

Lemma clearModelsCache_refetches_witness :
  let r := ModelsApi.fetchAvailableModels id (λ _ _, 0) Scenario.later
             (ModelsApi.Ok [Scenario.gpt4]) true "sk-0123456789" "https://api"
             (ModelsApi.clearModelsCache true Scenario.hourOld) in
  ModelsApi.requests r.1 = ModelsApi.requests Scenario.hourOld ++ ["https://api/models"%string] ∧
  r.2 = ModelsApi.Returns (ModelsApi.chatModels id (λ _ _, 0) [Scenario.gpt4]).
Proof.
  apply (clearModelsCache_refetches id (λ _ _, 0) Scenario.later
           (ModelsApi.Ok [Scenario.gpt4]) true "sk-0123456789" "https://api"
           Scenario.hourOld).
  discriminate.
Defined.

(** ** The context sent to the model *)

Section context.
Import ChatContext.

Variable overBudget : Z -> bool.

Lemma tokensOf_app l1 l2 : tokensOf (l1 ++ l2) = tokensOf l1 + tokensOf l2.
Proof. unfold tokensOf. induction l1 as [|m l1 IH]; simpl; [done|]. rewrite IH. lia. Qed.

Lemma tokensOf_rev l : tokensOf (rev l) = tokensOf l.
Proof.
  induction l as [|m l IH]; [done|]. cbn [rev]. rewrite tokensOf_app, IH.
  unfold tokensOf. simpl. lia.
Qed.

(** The loop takes messages from the front of the reversed list while the
    running total stays within the budget. *)
Lemma trimLoop_spec reversed : ∀ total acc,
  ∃ taken rest,
    reversed = taken ++ rest ∧
    trimLoop overBudget reversed total acc = (apiMessage <$> rev taken) ++ acc ∧
    (taken ≠ [] → overBudget (total + tokensOf taken) = false) ∧
    (∀ m, head rest = Some m →
          overBudget (total + tokensOf taken + estimateTokens (m_content m)) = true).
Proof.
  induction reversed as [|msg reversed IH]; intros total acc.
  { exists [], []. repeat split; try done. }
  cbn [trimLoop].
  destruct (overBudget (total + estimateTokens (m_content msg))) eqn:Hover.
  - exists [], (msg :: reversed). repeat split; try done.
    intros m [= <-]. unfold tokensOf. simpl. by rewrite Z.add_0_r.
  - destruct (IH (total + estimateTokens (m_content msg)) (apiMessage msg :: acc))
      as (taken & rest & -> & Hres & Hin & Hout).
    exists (msg :: taken), rest. split; [done|]. split; [|split].
    + rewrite Hres. cbn [rev]. rewrite fmap_app, <-(assoc_L (++)). done.
    + intros _. destruct taken as [|m' taken'].
      * unfold tokensOf. simpl. by rewrite Z.add_0_r.
      * rewrite <-Hin by done. f_equal. unfold tokensOf. simpl. lia.
    + intros m Hm. rewrite <-(Hout m Hm). f_equal. unfold tokensOf. simpl. lia.
Qed.

(** [trimMessagesForContext] sends the most recent messages, in their
    order, and the system prompt after them, not before: the result is
    the converted end of the conversation followed by the system message
    when there is a prompt. The tokens of prompt and kept messages are
    within the budget as soon as one message is kept, and the message
    before the kept ones, when there is one, would go over it. A prompt
    is sent even when it alone is over the budget. *)
Theorem trimMessagesForContext_keeps_latest messages systemPrompt :
  let prompt :=
    if truthy systemPrompt
    then [{| role := role_system; content := default ""%string systemPrompt |}]
    else [] in
  let promptTokens :=
    if truthy systemPrompt then estimateTokens (default ""%string systemPrompt) else 0 in
  ∃ dropped kept,
    messages = dropped ++ kept ∧
    trimMessagesForContext overBudget messages systemPrompt
      = convertMessagesToAPI kept ++ prompt ∧
    (kept ≠ [] → overBudget (promptTokens + tokensOf kept) = false) ∧
    (∀ older, last dropped = Some older →
       overBudget (promptTokens + tokensOf kept + estimateTokens (m_content older)) = true).
Proof.
  cbv zeta. unfold trimMessagesForContext, convertMessagesToAPI.
  destruct (trimLoop_spec (rev messages)
              (if truthy systemPrompt
               then estimateTokens (default ""%string systemPrompt) else 0)
              (if truthy systemPrompt
               then [{| role := role_system; content := default ""%string systemPrompt |}]
               else []))
    as (taken & rest & Hsplit & Hres & Hin & Hout).
  exists (rev rest), (rev taken). split; [|split; [done|split]].
  - rewrite <-rev_app_distr, <-Hsplit. by rewrite rev_involutive.
  - intros Hne. rewrite tokensOf_rev. apply Hin. intros ->. by destruct Hne.
  - intros older Hlast. rewrite tokensOf_rev. apply Hout.
    rewrite <-Hlast. destruct rest as [|m rest']; [done|].
    cbn [rev head]. by rewrite last_snoc.
Qed.

End context.
